(** * Accera value dialect: MMA descriptors, verifiers, folders and builders

    A shallow embedding of [accera/ir/src/value/ValueDialect.cpp] and the
    properties of it that the specification of the dialect relies on.

    Conventions.
    - C++ integers ([int64_t], [unsigned], [uint8_t]) are [Z]; every value
      that occurs below is far from the bounds of its type.
    - A scoped enumeration whose declaration lives in [ValueEnums.h] is an
      inductive type with the enumerators this file names, plus one
      constructor carrying the underlying integer of any other value.
    - [assert] is modelled as in a build with assertions enabled: a failing
      assertion ends the computation in [AssertionFailed]. Indexing a
      container outside its bounds ends it in [OutOfRange]. *)

From Stdlib Require Import Ascii String.
From stdpp Require Import base list sets strings numbers gmap.

Local Open Scope Z_scope.

(** ** Results of computations that may hit an assertion *)

Inductive outcome (A : Type) : Type :=
| Returned (a : A)
| AssertionFailed (msg : string)
| OutOfRange (what : string).
Arguments Returned {A} a.
Arguments AssertionFailed {A} msg.
Arguments OutOfRange {A} what.

#[global] Instance outcome_ret : MRet outcome := fun A a => Returned a.

#[global] Instance outcome_bind : MBind outcome := fun A B f x =>
  match x with
  | Returned a => f a
  | AssertionFailed msg => AssertionFailed msg
  | OutOfRange what => OutOfRange what
  end.

(** [assert(cond)]: nothing when [NDEBUG] is defined. *)
Definition assert_ (NDEBUG : bool) (cond : bool) (msg : string) : outcome unit :=
  if NDEBUG || cond then Returned () else AssertionFailed msg.

(** [LogicalResult] together with the diagnostic text of [emitError]. *)
Inductive LogicalResult : Type :=
| success
| failure (diagnostic : string).

(** ** MMA shapes and descriptors *)

Module MMA.

(** The enumerators of [MMAShape] that the constructor of [MMAOp]
    switches on, in the order of the [case] labels. *)
Inductive MMAShape : Type :=
| M64xN64xK1_B4
| M64xN64xK1_B2
| M64xN64xK2_B4
| M64xN64xK2_B2
| M64xN64xK4_B4
| M64xN64xK4_B2
| M32xN32xK2_B1
| M32xN32xK4_B1
| M32xN32xK8_B1
| M16xN16xK4_B1
| M16xN16xK8_B1
| M16xN16xK16_B1
| M32xN8xK16_B1
| M8xN32xK16_B1
| MMAShape_other (raw : Z).

#[global] Instance MMAShape_eq_dec : EqDecision MMAShape.
Proof. solve_decision. Defined.

Inductive MMAOperandType : Type :=
| A
| B
| Acc
| MMAOperandType_other (raw : Z).

#[global] Instance MMAOperandType_eq_dec : EqDecision MMAOperandType.
Proof. solve_decision. Defined.

(** The data members of [class MMAOp]. *)
Record MMAOp : Type := mkMMAOp {
  shape : MMAShape;
  m : Z;
  n : Z;
  k : Z;
  blocks : Z
}.

(** [MMAOp::MMAOp(MMAShape)]. *)
Definition MMAOp_new (shape_ : MMAShape) : outcome MMAOp :=
  match shape_ with
  | M64xN64xK1_B4 => Returned (mkMMAOp shape_ 64 64 1 4)
  | M64xN64xK1_B2 => Returned (mkMMAOp shape_ 64 64 1 2)
  | M64xN64xK2_B4 => Returned (mkMMAOp shape_ 64 64 2 4)
  | M64xN64xK2_B2 => Returned (mkMMAOp shape_ 64 64 2 2)
  | M64xN64xK4_B4 => Returned (mkMMAOp shape_ 64 64 4 4)
  | M64xN64xK4_B2 => Returned (mkMMAOp shape_ 64 64 4 2)
  | M32xN32xK2_B1 => Returned (mkMMAOp shape_ 32 32 2 1)
  | M32xN32xK4_B1 => Returned (mkMMAOp shape_ 32 32 4 1)
  | M32xN32xK8_B1 => Returned (mkMMAOp shape_ 32 32 8 1)
  | M16xN16xK4_B1 => Returned (mkMMAOp shape_ 16 16 4 1)
  | M16xN16xK8_B1 => Returned (mkMMAOp shape_ 16 16 8 1)
  | M16xN16xK16_B1 => Returned (mkMMAOp shape_ 16 16 16 1)
  | M32xN8xK16_B1 => Returned (mkMMAOp shape_ 32 8 16 1)
  | M8xN32xK16_B1 => Returned (mkMMAOp shape_ 8 32 16 1)
  | MMAShape_other _ => AssertionFailed "Invalid MMA shape."
  end.

Definition getShapeType (op : MMAOp) : MMAShape := shape op.
Definition getM (op : MMAOp) : Z := m op.
Definition getN (op : MMAOp) : Z := n op.
Definition getK (op : MMAOp) : Z := k op.
Definition getNumBlocks (op : MMAOp) : Z := blocks op.

(** [MMAOp::getOperandShape]. *)
Definition getOperandShape (op : MMAOp) (operandType : MMAOperandType) : list Z :=
  match operandType with
  | A => [getM op; getK op]
  | B => [getK op; getN op]
  | Acc => [getM op; getN op]
  | MMAOperandType_other _ => []
  end.

(** [MMAOp::getOffsetMap]; the entries are [uint8_t]. *)
Definition getOffsetMap (op : MMAOp) : list Z :=
  if (getNumBlocks op =? 2) || (m op =? 32)
  then [0; 4; 1; 5; 2; 6; 3; 7; 8; 12; 9; 13; 10; 14; 11; 15;
        16; 20; 17; 21; 18; 22; 19; 23; 24; 28; 25; 29; 26; 30; 27; 31]
  else [0; 4; 8; 12; 1; 5; 9; 13; 2; 6; 10; 14; 3; 7; 11; 15].

(** [MMAOp::getOffsetMapSize]; a [std::array<int64_t, 2>]. *)
Definition getOffsetMapSize (op : MMAOp) : Z * Z :=
  if (getNumBlocks op =? 2) || (m op =? 32)
  then (16, 2)
  else (4, 4).

(** The identifier of each enumerator, as the source spells it. *)
Definition MMAShape_name (s : MMAShape) : string :=
  match s with
  | M64xN64xK1_B4 => "M64xN64xK1_B4"
  | M64xN64xK1_B2 => "M64xN64xK1_B2"
  | M64xN64xK2_B4 => "M64xN64xK2_B4"
  | M64xN64xK2_B2 => "M64xN64xK2_B2"
  | M64xN64xK4_B4 => "M64xN64xK4_B4"
  | M64xN64xK4_B2 => "M64xN64xK4_B2"
  | M32xN32xK2_B1 => "M32xN32xK2_B1"
  | M32xN32xK4_B1 => "M32xN32xK4_B1"
  | M32xN32xK8_B1 => "M32xN32xK8_B1"
  | M16xN16xK4_B1 => "M16xN16xK4_B1"
  | M16xN16xK8_B1 => "M16xN16xK8_B1"
  | M16xN16xK16_B1 => "M16xN16xK16_B1"
  | M32xN8xK16_B1 => "M32xN8xK16_B1"
  | M8xN32xK16_B1 => "M8xN32xK16_B1"
  | MMAShape_other _ => "MMAShape_other"
  end.

(** The [case] labels of the constructor's [switch]. *)
Definition case_labels : list MMAShape :=
  [M64xN64xK1_B4; M64xN64xK1_B2; M64xN64xK2_B4; M64xN64xK2_B2;
   M64xN64xK4_B4; M64xN64xK4_B2; M32xN32xK2_B1; M32xN32xK4_B1;
   M32xN32xK8_B1; M16xN16xK4_B1; M16xN16xK8_B1; M16xN16xK16_B1;
   M32xN8xK16_B1; M8xN32xK16_B1].

End MMA.

(** ** Reading a tuple off an enumerator's name

    [M32xN8xK16_B1] documents the tile it stands for: the decimal numerals
    of the identifier, in order, are m, n, k and the number of blocks. *)

Definition digit_of (c : ascii) : option Z :=
  let v := Z.of_nat (nat_of_ascii c) in
  if (48 <=? v) && (v <=? 57) then Some (v - 48) else None.

Fixpoint numerals_from (s : string) (cur : option Z) : list Z :=
  match s with
  | EmptyString => match cur with Some v => [v] | None => [] end
  | String c rest =>
      match digit_of c, cur with
      | Some d, Some v => numerals_from rest (Some (10 * v + d))
      | Some d, None => numerals_from rest (Some d)
      | None, Some v => v :: numerals_from rest None
      | None, None => numerals_from rest None
      end
  end.

Definition numerals (s : string) : list Z := numerals_from s None.

Definition documented_tuple (s : MMA.MMAShape) : list Z :=
  numerals (MMA.MMAShape_name s).

Definition descriptor_tuple (op : MMA.MMAOp) : list Z :=
  [MMA.m op; MMA.n op; MMA.k op; MMA.blocks op].

(** A shape is recognized when the constructor returns a descriptor. *)
Definition recognized (s : MMA.MMAShape) : Prop :=
  exists op, MMA.MMAOp_new s = Returned op.

(** ** Types of the host framework, as far as this file looks into them *)

Module MemorySpace.
(** The enumerators of [MemorySpace] that the verifiers compare with. *)
Inductive t : Type :=
| None
| Global
| Shared
| Private
| Tensor
| other (raw : Z).
End MemorySpace.

#[global] Instance MemorySpace_eq_dec : EqDecision MemorySpace.t.
Proof. solve_decision. Defined.

Inductive Signedness : Type := Signless | Signed | Unsigned.

#[global] Instance Signedness_eq_dec : EqDecision Signedness.
Proof. solve_decision. Defined.

Inductive FloatKind : Type := BF16 | F16 | F32 | F64.

#[global] Instance FloatKind_eq_dec : EqDecision FloatKind.
Proof. solve_decision. Defined.

(** [mlir::Type], by the categories the predicates of this file tell
    apart; [OtherType] is any type that is neither integer, index nor
    float (vectors, tensors, memrefs, ...). *)
Inductive MlirType : Type :=
| IntegerType (width : Z) (signedness : Signedness)
| IndexType
| FloatType (kind : FloatKind)
| OtherType (id : Z).

#[global] Instance MlirType_eq_dec : EqDecision MlirType.
Proof. solve_decision. Defined.

Definition isSignlessIntOrIndex (t : MlirType) : bool :=
  match t with
  | IntegerType _ Signless => true
  | IndexType => true
  | _ => false
  end.

Definition isSignlessIntOrIndexOrFloat (t : MlirType) : bool :=
  match t with
  | IntegerType _ Signless => true
  | IndexType => true
  | FloatType _ => true
  | _ => false
  end.


Definition isFloat (t : MlirType) : bool :=
  match t with FloatType _ => true | _ => false end.

(** ** Permutations of an index range, decided by counting *)

Definition is_permutation_of_range (l : list Z) (len : nat) : bool :=
  bool_decide (length l = len)
  && forallb (fun i => bool_decide (i ∈ l)) (seqZ 0 (Z.of_nat len)).

(** ** Strided layouts

    The affine maps of the host framework and its functions
    [makeStridedLinearLayoutMap], [AffineMap::getPermutationMap],
    [AffineMap::compose] and [getStridesAndOffset] are not among the
    sources. Following the specification, a strided layout is the explicit
    linear form (strides, offset): an affine expression is kept as its
    constant term and its coefficient for each dimension, an affine map as
    the list of its results, and composition substitutes the results of the
    inner map for the dimensions of the outer one. *)

Module Affine.

(** Modelled from the spec: an affine expression of the host framework, as
    the linear form it denotes. *)
Record AffineExpr : Type := mkAffineExpr {
  constant : Z;
  coefficients : list Z
}.

(** Modelled from the spec: an affine map of the host framework, as the
    number of its dimensions and its results. *)
Record AffineMap : Type := mkAffineMap {
  numDims : nat;
  results : list AffineExpr
}.

Definition getAffineConstantExpr (dims : nat) (c : Z) : AffineExpr :=
  mkAffineExpr c (replicate dims 0).

Definition getAffineDimExpr (dims : nat) (position : nat) : AffineExpr :=
  mkAffineExpr 0 (<[position := 1]> (replicate dims 0)).

Definition scale (c : Z) (e : AffineExpr) : AffineExpr :=
  mkAffineExpr (c * constant e) (Z.mul c <$> coefficients e).

Definition plus (e1 e2 : AffineExpr) : AffineExpr :=
  mkAffineExpr (constant e1 + constant e2)
               (zip_with Z.add (coefficients e1) (coefficients e2)).

(** [e] with dimension [i] replaced by [replacements !! i]. *)
Definition replaceDims (dims : nat) (e : AffineExpr)
    (replacements : list AffineExpr) : AffineExpr :=
  foldr plus (getAffineConstantExpr dims (constant e))
        (zip_with scale (coefficients e) replacements).

(** Modelled from the spec: [AffineMap::getPermutationMap] of the host
    framework, [(d0, .., dn-1) -> (d_permutation[0], .., d_permutation[n-1])];
    there is such a map only when the vector is a permutation of 0 .. n-1. *)
Definition getPermutationMap (permutation : list nat) : option AffineMap :=
  if is_permutation_of_range (Z.of_nat <$> permutation) (length permutation)
  then Some (mkAffineMap (length permutation)
               (getAffineDimExpr (length permutation) <$> permutation))
  else None.

(** Modelled from the spec: [makeStridedLinearLayoutMap] of the host
    framework, [(d0, .., dn-1) -> (offset + d0 * strides[0] + ..)]. *)
Definition makeStridedLinearLayoutMap (strides : list Z) (offset : Z) : AffineMap :=
  mkAffineMap (length strides) [mkAffineExpr offset strides].

(** Modelled from the spec: [AffineMap::compose] of the host framework;
    [f.compose(g)] is first [g], then [f]. *)
Definition compose (f g : AffineMap) : AffineMap :=
  mkAffineMap (numDims g)
              ((fun e => replaceDims (numDims g) e (results g)) <$> results f).

End Affine.

(** Modelled from the spec: [mlir::MemRefType], a shape, an element type,
    a layout and a memory space. The layout is the layout map of the type;
    for a type written without one it is the row-major map of its shape. *)
Record MemRefType : Type := mkMemRefType {
  shape : list Z;
  elementType : MlirType;
  layout : Affine.AffineMap;
  memorySpace : MemorySpace.t
}.

Definition getShape (t : MemRefType) : list Z := shape t.
Definition getElementType (t : MemRefType) : MlirType := elementType t.
Definition getRank (t : MemRefType) : nat := length (shape t).

(** [MemRefType::Builder(t).setShape(..)] and [.setLayout(..)]. *)
Definition setShape (t : MemRefType) (newShape : list Z) : MemRefType :=
  mkMemRefType newShape (elementType t) (layout t) (memorySpace t).

Definition setLayout (t : MemRefType) (newLayout : Affine.AffineMap) : MemRefType :=
  mkMemRefType (shape t) (elementType t) newLayout (memorySpace t).

(** Modelled from the spec: [getStridesAndOffset] of the host framework.
    The strides and the offset are computable when the layout is a single
    linear form over as many dimensions as the type has. *)
Definition getStridesAndOffset (t : MemRefType) : option (list Z * Z) :=
  match Affine.results (layout t) with
  | [e] =>
      if bool_decide (Affine.numDims (layout t) = getRank t
                      /\ length (Affine.coefficients e) = getRank t)
      then Some (Affine.coefficients e, Affine.constant e)
      else None
  | _ => None
  end.

(** ** Verifiers of the MMA and cache operations *)

Module Verify.

(** What the verifiers read of each operation. *)
Record MMAComputeSyncOp : Type := mkMMAComputeSyncOp {
  opA : MemRefType;
  opB : MemRefType
}.

Record MMAFillSyncOp : Type := mkMMAFillSyncOp {
  value : MlirType;
  fillDest : MemRefType
}.

Record MMALoadSyncOp : Type := mkMMALoadSyncOp {
  loadMemRefType : MemRefType;
  operandType : MMA.MMAOperandType
}.

Record MMAStoreSyncOp : Type := mkMMAStoreSyncOp {
  storeMemRefType : MemRefType
}.

Record GPUBlockCacheOp : Type := mkGPUBlockCacheOp {
  tileShape : list Z;
  dest : MemRefType;
  workPerThread : Z;
  vecWidth : Z;
  dstRowMajor : bool
}.

(** [verify(MMAComputeSyncOp)]. *)
Definition verify_MMAComputeSyncOp (op : MMAComputeSyncOp) : LogicalResult :=
  let opAType := getElementType (opA op) in
  let opBType := getElementType (opB op) in
  if bool_decide (opAType <> opBType)
  then failure "Invalid data types for A and B."
  else success.

(** [verify(MMAFillSyncOp)]. *)
Definition verify_MMAFillSyncOp (op : MMAFillSyncOp) : LogicalResult :=
  let valueType := value op in
  if bool_decide (valueType <> getElementType (fillDest op))
  then failure "value type must match matrix element type"
  else success.

(** [verify(MMALoadSyncOp)]. *)
Definition verify_MMALoadSyncOp (op : MMALoadSyncOp) : LogicalResult :=
  let srcType := loadMemRefType op in
  let operand := operandType op in
  let srcMemSpace := memorySpace srcType in
  if bool_decide (srcMemSpace <> MemorySpace.None)
     && bool_decide (srcMemSpace <> MemorySpace.Shared)
     && bool_decide (srcMemSpace <> MemorySpace.Global)
     && bool_decide (srcMemSpace <> MemorySpace.Private)
     && bool_decide (srcMemSpace <> MemorySpace.Tensor)
  then failure "source memorySpace None, Shared, Private, Global or Tensor only allowed"
  else if bool_decide (operand <> MMA.A)
          && bool_decide (operand <> MMA.B)
          && bool_decide (operand <> MMA.Acc)
  then failure "only AOp, BOp and COp can be loaded"
  else success.

(** [verify(MMAStoreSyncOp)]. *)
Definition verify_MMAStoreSyncOp (op : MMAStoreSyncOp) : LogicalResult :=
  let dstMemrefType := storeMemRefType op in
  let dstMemSpace := memorySpace dstMemrefType in
  if bool_decide (dstMemSpace <> MemorySpace.None)
     && bool_decide (dstMemSpace <> MemorySpace.Shared)
     && bool_decide (dstMemSpace <> MemorySpace.Global)
     && bool_decide (dstMemSpace <> MemorySpace.Private)
     && bool_decide (dstMemSpace <> MemorySpace.Tensor)
  then failure "destination memorySpace of None, Global, Shared, Private or Tensor only allowed"
  else success.

(** [verify(GPUBlockCacheOp)]. [%] is the remainder of C++, [Z.rem];
    it is reached only when both of its arguments are at least 1. *)
Definition verify_GPUBlockCacheOp (NDEBUG : bool) (op : GPUBlockCacheOp)
    : outcome LogicalResult :=
  let tileShape := tileShape op in
  if bool_decide (length tileShape <> 2%nat)
  then Returned (failure "Only 2-D tiles are supported.")
  else
    let dstMemrefType := dest op in
    let destMemSpace := memorySpace dstMemrefType in
    let dstShape := getShape dstMemrefType in
    if bool_decide (length dstShape <> 2%nat)
    then Returned (failure "Only 2-D destination memrefs are supported.")
    else
      if (workPerThread op <? 1) || (vecWidth op <? 1)
         || negb (Z.rem (workPerThread op) (vecWidth op) =? 0)
      then Returned (failure "Work per thread (WPT) must be >= 1 and vector width must be >= 1 and WPT must be a multiple of vector width.")
      else
        let tileShapeVec := tileShape in
        _ ← assert_ NDEBUG
              (negb (bool_decide (destMemSpace = MemorySpace.Shared) && dstRowMajor op)
               || ((dstShape !!! 0%nat =? tileShapeVec !!! 0%nat)
                   && (dstShape !!! 1%nat =? tileShapeVec !!! 1%nat)))
              "!(destMemSpace == MemorySpace::Shared && op.dstRowMajor()) || (dstShape[0] == tileShapeVec[0] && dstShape[1] == tileShapeVec[1])";
        _ ← assert_ NDEBUG
              (negb (bool_decide (destMemSpace = MemorySpace.Shared) && negb (dstRowMajor op))
               || ((dstShape !!! 0%nat =? tileShapeVec !!! 1%nat)
                   && (dstShape !!! 1%nat =? tileShapeVec !!! 0%nat)))
              "!(destMemSpace == MemorySpace::Shared && !op.dstRowMajor()) || (dstShape[0] == tileShapeVec[1] && dstShape[1] == tileShapeVec[0])";
        Returned success.

End Verify.

(** The memory spaces the load and store verifiers let through. *)
Definition allowed_memory_spaces : list MemorySpace.t :=
  [MemorySpace.None; MemorySpace.Shared; MemorySpace.Global;
   MemorySpace.Private; MemorySpace.Tensor].

Definition loadable_operands : list MMA.MMAOperandType :=
  [MMA.A; MMA.B; MMA.Acc].

(** ** Folding *)

Module Fold.

(** An SSA value: an identity and a type. *)
Record Value : Type := mkValue {
  valueId : Z;
  valueType : MlirType
}.

(** The floats that a fold of an integer reaches: those that hold an
    integer, and the infinities. *)
Inductive APFloat : Type :=
| exactly (v : Z)
| infinite (negative : bool).

(** Significand bits and largest exponent of each float type. *)
Definition precision (k : FloatKind) : Z :=
  match k with BF16 => 8 | F16 => 11 | F32 => 24 | F64 => 53 end.

Definition maxExponent (k : FloatKind) : Z :=
  match k with BF16 => 127 | F16 => 15 | F32 => 127 | F64 => 1023 end.

(** The integer with at most [p] significant bits that is nearest to
    [v], the one with the even significand when two are equally near. *)
Definition round_to_precision (p : Z) (v : Z) : Z :=
  let a := Z.abs v in
  if a <? 2 ^ p then v
  else
    let e := Z.log2 a - p + 1 in
    let q := a / 2 ^ e in
    let r := a mod 2 ^ e in
    let half := 2 ^ (e - 1) in
    let q' := if r <? half then q
              else if half <? r then q + 1
              else if Z.even q then q else q + 1 in
    Z.sgn v * (q' * 2 ^ e).

(** Modelled from the spec: [APFloat::convert] of the host framework to
    the format of a float type, rounding to nearest, ties to even; a value
    beyond the largest finite one becomes an infinity. *)
Definition convert (k : FloatKind) (x : APFloat) : APFloat :=
  match x with
  | exactly v =>
      let r := round_to_precision (precision k) v in
      if 2 ^ (maxExponent k + 1) <=? Z.abs r then infinite (v <? 0) else exactly r
  | infinite negative => infinite negative
  end.

(** A C++ [double], and the conversion of an [int64_t] to it. *)
Definition double : Type := APFloat.

Definition int64_to_double (v : Z) : double := convert F64 (exactly v).

(** The constant operands handed to [fold]: [NullAttr] stands for an
    operand that is not a constant. An [IntegerAttr] is kept as its type
    and the integer that [getInt] reads. *)
Inductive Attribute : Type :=
| NullAttr
| IntegerAttr (type : MlirType) (value : Z)
| FloatAttr (type : MlirType) (value : APFloat)
| OtherAttr (id : Z).

Inductive OpFoldResult : Type :=
| FoldedAttr (a : Attribute)
| FoldedValue (v : Value)
| NotFolded.

(** Bits an integer constant of the type is stored in. *)
Definition storageWidth (t : MlirType) : Z :=
  match t with
  | IntegerType w _ => w
  | IndexType => 64
  | _ => 0
  end.

(** Two's-complement reading of the [w] low bits of [v]. *)
Definition signed_wrap (w : Z) (v : Z) : Z :=
  (v + 2 ^ (w - 1)) mod 2 ^ w - 2 ^ (w - 1).

(** Modelled from the spec: [IntegerAttr::getInt] of the host framework
    reads a constant of signless integer or index type as an [int64_t].
    Its preconditions are assertions of the framework: the type of the
    constant is a signless integer or index type, and its value is one an
    [int64_t] holds. A call outside them gives [AssertionFailed]. *)
Definition getInt (a : Attribute) : outcome Z :=
  match a with
  | IntegerAttr t v =>
      if isSignlessIntOrIndex t
      then if bool_decide (- 2 ^ 63 <= v < 2 ^ 63) then Returned v
           else AssertionFailed "Too many bits for int64_t"
      else AssertionFailed "must be signless integer"
  | _ => AssertionFailed "not an IntegerAttr"
  end.

(** Modelled from the spec: [IntegerAttr::get(Type, int64_t)] of the host
    framework makes the constant of the target type from the integer,
    keeping the bits that the type has room for. *)
Definition IntegerAttr_get (t : MlirType) (v : Z) : Attribute :=
  IntegerAttr t (signed_wrap (storageWidth t) v).

(** Modelled from the spec: [FloatAttr::get(Type, double)] of the host
    framework makes the constant of a float type from the double, converted
    to the format of the type. *)
Definition FloatAttr_get (t : MlirType) (value : double) : Attribute :=
  match t with
  | FloatType k => FloatAttr t (convert k value)
  | _ => FloatAttr t value
  end.

Record GetElementOp : Type := mkGetElementOp {
  getElementOperand : Value;
  getElementType_ : MlirType
}.

Record CastOp : Type := mkCastOp {
  castOperand : Value;
  castType_ : MlirType
}.

(** [GetElementOp::fold]. *)
Definition GetElementOp_fold (op : GetElementOp) (operands : list Attribute)
    : OpFoldResult :=
  if bool_decide (valueType (getElementOperand op) = getElementType_ op)
  then FoldedValue (getElementOperand op)
  else NotFolded.

(** [CastOp::fold]. *)
Definition CastOp_fold (op : CastOp) (operands : list Attribute)
    : outcome OpFoldResult :=
  match operands !! 0%nat with
  | None => OutOfRange "operands[0]"
  | Some (IntegerAttr ty v) =>
      let value := IntegerAttr ty v in
      let castType := castType_ op in
      if isSignlessIntOrIndex castType
      then i ← getInt value;
           Returned (FoldedAttr (IntegerAttr_get castType i))
      else if isSignlessIntOrIndexOrFloat castType
      then i ← getInt value;
           Returned (FoldedAttr (FloatAttr_get castType (int64_to_double i)))
      else Returned NotFolded
  | Some _ => Returned NotFolded
  end.

(** An integer constant that its type can hold, in at most 64 bits. *)
Definition fits (a : Attribute) : Prop :=
  match a with
  | IntegerAttr t v =>
      1 <= storageWidth t <= 64
      /\ - 2 ^ (storageWidth t - 1) <= v < 2 ^ (storageWidth t - 1)
  | _ => False
  end.

Definition isIntegerAttr (a : Attribute) : bool :=
  match a with IntegerAttr _ _ => true | _ => false end.

End Fold.

(** ** Builders of the function-like operations *)

Module Func.

Definition Location : Type := Z.

Record FunctionType : Type := mkFunctionType {
  getInputs : list MlirType;
  getResults : list MlirType
}.

Inductive ExecutionTarget : Type :=
| ExecutionTarget_value (raw : Z).

(** Attribute names: three come from accessors whose text is declared
    elsewhere, the others are written out in the source. *)
Inductive AttrName : Type :=
| SymbolAttrName
| TypeAttrName
| ExecTargetAttrName
| Named (s : string).

Inductive Attr : Type :=
| StringAttr (s : string)
| TypeAttr (t : FunctionType)
| ExecutionTargetAttr (t : ExecutionTarget)
| UnitAttr.

Record Operation : Type := mkOperation {
  opName : string;
  opLocation : Location;
  opOperands : list Z;
  isTerminator : bool
}.

Record Block : Type := mkBlock {
  arguments : list (MlirType * Location);
  operations : list Operation
}.

Definition Region : Type := list Block.

Record OperationState : Type := mkOperationState {
  location : Location;
  attributes : list (AttrName * Attr);
  regions : list Region
}.

(** Where a builder inserts: at the end of a block of the operation
    being built, or somewhere outside of it. *)
Inductive InsertPoint : Type :=
| EndOfBlock (region block : nat)
| Outside (id : Z).

Record OpBuilder : Type := mkOpBuilder {
  insertionPoint : InsertPoint
}.

Definition addAttribute (result : OperationState) (name : AttrName) (a : Attr)
    : OperationState :=
  mkOperationState (location result) (attributes result ++ [(name, a)]) (regions result).

Definition addRegion (result : OperationState) (r : Region) : OperationState :=
  mkOperationState (location result) (attributes result) (regions result ++ [r]).

(** [ValueFuncOp::build]. *)
Definition ValueFuncOp_build (builder : OpBuilder) (result : OperationState)
    (name : string) (type : FunctionType) (target : ExecutionTarget)
    : OperationState :=
  let result := addAttribute result SymbolAttrName (StringAttr name) in
  let result := addAttribute result TypeAttrName (TypeAttr type) in
  let result := addAttribute result ExecTargetAttrName (ExecutionTargetAttr target) in
  let entryBlock :=
    mkBlock ((fun t => (t, location result)) <$> getInputs type) [] in
  addRegion result [entryBlock].

(** [builder.create<ReturnOp>(loc)]: a return without operands. *)
Definition ReturnOp (loc : Location) : Operation :=
  mkOperation "ReturnOp" loc [] true.

Definition setInsertionPointToEnd (builder : OpBuilder) (region block : nat)
    : OpBuilder :=
  mkOpBuilder (EndOfBlock region block).

Definition appendToBlock (b : Block) (op : Operation) : Block :=
  mkBlock (arguments b) (operations b ++ [op]).

(** [builder.create]: the operation goes where the builder points. *)
Definition create (builder : OpBuilder) (result : OperationState) (op : Operation)
    : OperationState :=
  match insertionPoint builder with
  | EndOfBlock r b =>
      mkOperationState (location result) (attributes result)
        (alter (alter (fun blk => appendToBlock blk op) b) r (regions result))
  | Outside _ => result
  end.

(** [ValueFuncOp::build] with [ExternalFuncTag]. The insertion guard
    puts the builder back where it was. *)
Definition ValueFuncOp_build_external (builder : OpBuilder) (result : OperationState)
    (name : string) (type : FunctionType) (target : ExecutionTarget)
    : outcome (OpBuilder * OperationState) :=
  let result := ValueFuncOp_build builder result name type target in
  let result := addAttribute result (Named "external") UnitAttr in
  let guard := insertionPoint builder in
  match regions result !! 0%nat with
  | None => OutOfRange "result.regions[0]"
  | Some region0 =>
      match region0 with
      | [] => OutOfRange "front() of an empty region"
      | _ :: _ =>
          let inner := setInsertionPointToEnd builder 0 0 in
          let result := create inner result (ReturnOp (location result)) in
          Returned (mkOpBuilder guard, result)
      end
  end.

(** A block is closed when its last operation is a terminator; an
    operation is well-formed in structure when all its blocks are. *)
Definition block_closed (b : Block) : bool :=
  match list.last (operations b) with
  | Some op => isTerminator op
  | None => false
  end.

Definition structurally_valid (st : OperationState) : bool :=
  forallb (forallb block_closed) (regions st).

End Func.

(** ** Building a reorder *)

Module Reorder.

(** [v[i]] for a signed [i]: inside the bounds or not at all. *)
Definition at_ {T : Type} (v : list T) (i : Z) : option T :=
  if bool_decide (0 <= i) then v !! Z.to_nat i else None.

(** The loop of [ReorderOp::build] over [llvm::enumerate(dimOrder)],
    from position [index] on. *)
Fixpoint build_loop (originalSizes : list Z) (dimOrder : list Z) (index : nat)
    (permutedSizes : list Z) (affineMapOrder : list nat)
    : outcome (list Z * list nat) :=
  match dimOrder with
  | [] => Returned (permutedSizes, affineMapOrder)
  | value :: rest =>
      match at_ originalSizes value with
      | None => OutOfRange "originalSizes[en.value()]"
      | Some size =>
          if bool_decide (Z.to_nat value < length affineMapOrder)%nat
          then build_loop originalSizes rest (S index)
                 (<[index := size]> permutedSizes)
                 (<[Z.to_nat value := index]> affineMapOrder)
          else OutOfRange "affineMapOrder[en.value()]"
      end
  end.

(** [ReorderOp::build]: the type of the result. [orderAttr] is the
    order as [ConvertArrayAttrToIntVector] reads it. *)
Definition ReorderOp_build (sourceType : MemRefType) (orderAttr : list Z)
    : outcome MemRefType :=
  let originalSizes := getShape sourceType in
  let dimOrder := orderAttr in
  '(permutedSizes, affineMapOrder) ←
    build_loop originalSizes dimOrder 0
      (replicate (length dimOrder) 0) (replicate (length dimOrder) 0%nat);
  match Affine.getPermutationMap affineMapOrder with
  | None => AssertionFailed "permutationMap"
  | Some permutationMap =>
      match getStridesAndOffset sourceType with
      | None => AssertionFailed "succeeded(res)"
      | Some (strides, offset) =>
          let map := Affine.makeStridedLinearLayoutMap strides offset in
          let map := Affine.compose map permutationMap in
          Returned (setLayout (setShape sourceType permutedSizes) map)
      end
  end.

(** [Q] undoes [P]: position [P[i]] of [Q] holds [i]. *)
Definition is_inverse_order (P Q : list Z) : bool :=
  bool_decide (length Q = length P)
  && forallb (fun iv => bool_decide (at_ Q iv.2 = Some iv.1))
             (zip (seqZ 0 (Z.of_nat (length P))) P).

(** Two buffer types with the same shape, strides and offset. *)
Definition same_structure (t1 t2 : MemRefType) : Prop :=
  getShape t1 = getShape t2
  /\ getStridesAndOffset t1 = getStridesAndOffset t2.

End Reorder.

(** ** Created functions: verification and erasing arguments *)

#[global] Instance MlirType_inhabited : Inhabited MlirType := populate IndexType.

Module FuncOp.

Definition DictionaryAttr : Type := list (string * Z).

(** A created [ValueFuncOp], as [verify] and [eraseArguments] read it:
    the function type of its type attribute, the attribute dictionaries of
    its arguments, its body region and whether it is external. *)
Record ValueFuncOp : Type := mkValueFuncOp {
  getType : Func.FunctionType;
  allArgAttrs : list DictionaryAttr;
  getBody : Func.Region;
  isExternal : bool
}.

(** The outcome of [ValueFuncOp::verify]: success, or the diagnostic on
    entry block argument [#i], kept as the three things it prints. *)
Inductive VerifyResult : Type :=
| verified
| argumentTypeMismatch (i : nat) (argumentType signatureType : MlirType).

Definition argumentTypes (b : Func.Block) : list MlirType :=
  fst <$> Func.arguments b.

(** The loop of [ValueFuncOp::verify] over the arguments of the entry
    block, from argument [i] on. *)
Fixpoint verify_loop (fnInputTypes : list MlirType) (blockArguments : list MlirType)
    (i : nat) : outcome VerifyResult :=
  match blockArguments with
  | [] => Returned verified
  | argumentType :: rest =>
      match fnInputTypes !! i with
      | None => OutOfRange "fnInputTypes[i]"
      | Some inputType =>
          if bool_decide (inputType <> argumentType)
          then Returned (argumentTypeMismatch i argumentType inputType)
          else verify_loop fnInputTypes rest (S i)
      end
  end.

(** [ValueFuncOp::verify]. *)
Definition ValueFuncOp_verify (op : ValueFuncOp) : outcome VerifyResult :=
  if isExternal op then Returned verified
  else
    let fnInputTypes := Func.getInputs (getType op) in
    match getBody op with
    | [] => OutOfRange "front() of an empty region"
    | entryBlock :: _ => verify_loop fnInputTypes (argumentTypes entryBlock) 0
    end.

(** [llvm::BitVector::set(index)] on a vector of fixed size. *)
Definition BitVector_set (bits : list bool) (index : nat) : outcome (list bool) :=
  if bool_decide (index < length bits)%nat
  then Returned (<[index := true]> bits)
  else OutOfRange "eraseIndices.set(index)".

(** [llvm::BitVector::test(index)]; the loops ask for bits inside the
    vector only. *)
Definition BitVector_test (bits : list bool) (index : nat) : bool :=
  default false (bits !! index).

Fixpoint set_all (bits : list bool) (argIndices : list nat) : outcome (list bool) :=
  match argIndices with
  | [] => Returned bits
  | index :: rest => bits' ← BitVector_set bits index; set_all bits' rest
  end.

(** [getArgAttrDict(i)]: the dictionary of argument [i], empty when the
    function records none for it. *)
Definition getArgAttrDict (op : ValueFuncOp) (i : nat) : DictionaryAttr :=
  allArgAttrs op !!! i.

(** The first loop of [eraseArguments]: the input types and argument
    attributes that stay, for the arguments listed in [positions]. *)
Fixpoint kept_inputs (op : ValueFuncOp) (shouldEraseArg : nat -> bool)
    (positions : list nat) : list MlirType * list DictionaryAttr :=
  match positions with
  | [] => ([], [])
  | i :: rest =>
      let '(newInputTypes, newArgAttrs) := kept_inputs op shouldEraseArg rest in
      if shouldEraseArg i then (newInputTypes, newArgAttrs)
      else (Func.getInputs (getType op) !!! i :: newInputTypes,
            getArgAttrDict op i :: newArgAttrs)
  end.

(** [Block::eraseArgument(index)]. *)
Definition eraseArgument (b : Func.Block) (index : nat) : outcome Func.Block :=
  if bool_decide (index < length (Func.arguments b))%nat
  then Returned (Func.mkBlock (delete index (Func.arguments b)) (Func.operations b))
  else OutOfRange "entry.eraseArgument(index)".

(** The second loop of [eraseArguments], for [i] in [steps]: it visits
    argument [originalNumArgs - i - 1]. *)
Fixpoint erase_entry_arguments (shouldEraseArg : nat -> bool) (originalNumArgs : nat)
    (steps : list nat) (entry : Func.Block) : outcome Func.Block :=
  match steps with
  | [] => Returned entry
  | i :: rest =>
      entry' ← (if shouldEraseArg (originalNumArgs - i - 1)%nat
                then eraseArgument entry (originalNumArgs - i - 1)%nat
                else Returned entry);
      erase_entry_arguments shouldEraseArg originalNumArgs rest entry'
  end.

(** [ValueFuncOp::eraseArguments]. *)
Definition ValueFuncOp_eraseArguments (op : ValueFuncOp) (argIndices : list nat)
    : outcome ValueFuncOp :=
  let oldType := getType op in
  let originalNumArgs := length (Func.getInputs oldType) in
  eraseIndices ← set_all (replicate originalNumArgs false) argIndices;
  let shouldEraseArg := BitVector_test eraseIndices in
  let '(newInputTypes, newArgAttrs) :=
    kept_inputs op shouldEraseArg (seq 0 originalNumArgs) in
  let newType := Func.mkFunctionType newInputTypes (Func.getResults oldType) in
  match getBody op with
  | [] => OutOfRange "front() of an empty region"
  | entry :: blocks =>
      entry' ← erase_entry_arguments shouldEraseArg originalNumArgs
                 (seq 0 originalNumArgs) entry;
      Returned (mkValueFuncOp newType newArgAttrs (entry' :: blocks) (isExternal op))
  end.

End FuncOp.

(** The elements of [l] whose position, counted from [i], is not listed
    in [indices]. *)
Fixpoint without_from {T : Type} (indices : list nat) (i : nat) (l : list T) : list T :=
  match l with
  | [] => []
  | x :: rest =>
      if bool_decide (i ∈ indices)
      then without_from indices (S i) rest
      else x :: without_from indices (S i) rest
  end.

Definition without_indices {T : Type} (l : list T) (indices : list nat) : list T :=
  without_from indices 0 l.

(** The signature and the entry block of a function agree: the block has
    one argument of the type of each input. *)
Definition signature_matches_entry (op : FuncOp.ValueFuncOp) : Prop :=
  exists entry blocks,
    FuncOp.getBody op = entry :: blocks
    /\ FuncOp.argumentTypes entry = Func.getInputs (FuncOp.getType op).

(** ** Elements per thread *)

Module MMAOp.

(** [MMAOp::getInElementsPerThread]; [/] is the division of C++, [Z.quot],
    and a warp size of 0 has no meaning. *)
Definition getInElementsPerThread (op : MMA.MMAOp) (warpSize : Z) : Z :=
  Z.quot (MMA.m op * MMA.k op) warpSize.

(** [MMAOp::getOutElementsPerThread]. *)
Definition getOutElementsPerThread (op : MMA.MMAOp) (warpSize : Z) : Z :=
  Z.quot (MMA.getM op * MMA.getN op) warpSize.

End MMAOp.

(** The number of elements of a tile of the given shape. *)
Definition num_elements (shape : list Z) : Z := foldr Z.mul 1 shape.

(** ** Globals and the modules that hold them *)

#[global] Instance AttrName_eq_dec : EqDecision Func.AttrName.
Proof. solve_decision. Defined.

Module Globals.

(** What a symbol of a symbol table names: a [GlobalOp] or an operation of
    another kind. *)
Inductive SymbolOp : Type :=
| GlobalOp (id : Z)
| OtherSymbol (id : Z).

(** An operation above a [ReferenceGlobalOp]: the two traits that
    [satisfiesModule] asks for, and the symbols of its symbol table.
    Modelled from the spec: [SymbolTable::lookupSymbolIn] of the host
    framework is the lookup of the name among these symbols. *)
Record ParentOp : Type := mkParentOp {
  hasSymbolTable : bool;
  hasIsIsolatedFromAbove : bool;
  symbols : gmap string SymbolOp
}.

(** [satisfiesModule]. *)
Definition satisfiesModule (op : ParentOp) : bool :=
  hasSymbolTable op && hasIsIsolatedFromAbove op.

(** The loop of [ReferenceGlobalOp::getGlobal] up the parents; [parents]
    lists them from the nearest on. *)
Fixpoint enclosing_module (parents : list ParentOp) : option ParentOp :=
  match parents with
  | [] => None
  | module :: rest =>
      if negb (satisfiesModule module) then enclosing_module rest else Some module
  end.

(** [ReferenceGlobalOp::getGlobal]; [None] is the null [GlobalOp]. *)
Definition getGlobal (parents : list ParentOp) (global_name : string)
    : outcome (option Z) :=
  match enclosing_module parents with
  | None => AssertionFailed "unexpected operation outside of a module"
  | Some module =>
      Returned (match symbols module !! global_name with
                | Some (GlobalOp g) => Some g
                | _ => None
                end)
  end.

(** The attributes that [GlobalOp::build] attaches. *)
Inductive GlobalAttr : Type :=
| StringAttr (s : string)
| TypeAttr (t : MemRefType)
| UnitAttr
| ValueAttr (a : Fold.Attribute)
| I32IntegerAttr (v : Z).

(** [GlobalOp::build]: the attributes added to the state, in order. A
    null [value] is [Fold.NullAttr]; [getI32IntegerAttr] takes the address
    space as an [int32_t]. *)
Definition GlobalOp_build (type : MemRefType) (isConstant : bool) (name : string)
    (value : Fold.Attribute) (addrSpace : Z) (isExternal : bool)
    : list (Func.AttrName * GlobalAttr) :=
  [(Func.SymbolAttrName, StringAttr name); (Func.Named "type", TypeAttr type)]
  ++ (if isConstant then [(Func.Named "constant", UnitAttr)] else [])
  ++ (if isExternal then [(Func.Named "external", UnitAttr)] else [])
  ++ (match value with
      | Fold.NullAttr => []
      | _ => [(Func.Named "value", ValueAttr value)]
      end)
  ++ (if bool_decide (addrSpace <> 0)
      then [(Func.Named "addr_space", I32IntegerAttr (Fold.signed_wrap 32 addrSpace))]
      else []).

(** The attribute recorded under a name. *)
Definition getAttr (attrs : list (Func.AttrName * GlobalAttr)) (name : Func.AttrName)
    : option GlobalAttr :=
  (fun found => found.2.2) <$> list_find (fun p => p.1 = name) attrs.

End Globals.

(** ** The types of the dialect, as text *)

Module DialectType.

(** A type handed to the printer: the [RangeType] of this dialect or a
    type that is not of this dialect. *)
Inductive DialectTy : Type :=
| RangeType
| ForeignType (id : Z).

(** [ValueDialect::parseType]. The keyword is [None] when [parseKeyword]
    fails; the result is [None] for the null type. A [StringSwitch]
    without default has no value for a keyword that matches no case. *)
Definition parseType (keyword : option string) : outcome (option DialectTy) :=
  match keyword with
  | None => Returned None
  | Some keyword =>
      if bool_decide (keyword = "range")
      then Returned (Some RangeType)
      else AssertionFailed "Fell off the end of a string-switch"
  end.

(** [ValueDialect::printType]: the text written to the stream. *)
Definition printType (type : DialectTy) : outcome string :=
  match type with
  | RangeType => Returned "range"
  | ForeignType _ => AssertionFailed "unexpected 'value' type kind"
  end.

End DialectType.

(** ** Vocabulary of the properties *)

(** What the block-cache verifier reports as a failure: a tile or a
    destination that is not 2-D, a work per thread or a vector width below
    1, or a work per thread that the vector width does not divide. *)
Definition block_cache_rejected (op : Verify.GPUBlockCacheOp) : Prop :=
  length (Verify.tileShape op) <> 2%nat
  \/ length (getShape (Verify.dest op)) <> 2%nat
  \/ Verify.workPerThread op < 1
  \/ Verify.vecWidth op < 1
  \/ ~ (Verify.vecWidth op | Verify.workPerThread op).

(** What its assertions ask of a destination in shared memory: the shape
    of the tile when row-major, of the transposed tile when column-major. *)
Definition shared_shape_matches (op : Verify.GPUBlockCacheOp) : Prop :=
  memorySpace (Verify.dest op) = MemorySpace.Shared ->
  getShape (Verify.dest op)
  = if Verify.dstRowMajor op then Verify.tileShape op
    else reverse (Verify.tileShape op).

(** The sum of the [weights] whose entry in [targets] is [j]: the
    coefficient that dimension [j] gets when dimension [i] of a linear form
    with these weights is replaced by dimension [targets !! i]. *)
Fixpoint weight_at (weights : list Z) (targets : list nat) (j : nat) : Z :=
  match weights, targets with
  | w :: weights', t :: targets' =>
      (if decide (t = j) then w else 0) + weight_at weights' targets' j
  | _, _ => 0
  end.

(** The entries of [v] at the positions that [order] lists. *)
Definition gather (v : list Z) (order : list Z) : list Z :=
  (fun p => v !!! Z.to_nat p) <$> order.

(** The linear address that a strided layout gives to an index. *)
Definition linear_address (strides : list Z) (offset : Z) (index : list Z) : Z :=
  offset + foldr Z.add 0 (zip_with Z.mul strides index).

(** The type that a constant carries. *)
Definition attributeType (a : Fold.Attribute) : option MlirType :=
  match a with
  | Fold.IntegerAttr t _ => Some t
  | Fold.FloatAttr t _ => Some t
  | _ => None
  end.

(** * Properties *)

(** ** Helper facts *)

(** Closes a goal from [H : x ∈ [a; b; ..]] when [x] is built from a
    constructor other than those of [a], [b], .. *)
Ltac not_listed H :=
  repeat (apply elem_of_cons in H as [H | H]; [discriminate H |]);
  by apply elem_of_nil in H.

Lemma is_permutation_of_range_spec (l : list Z) (len : nat) :
  is_permutation_of_range l len = true ->
  length l = len /\ NoDup l /\ (forall i, i ∈ l <-> 0 <= i < Z.of_nat len).
Proof.
  unfold is_permutation_of_range.
  rewrite andb_true_iff, bool_decide_eq_true, forallb_forall.
  intros [Hlen Hall].
  assert (Hincl : seqZ 0 (Z.of_nat len) ⊆ l).
  { intros i Hi. apply list_elem_of_In, Hall in Hi.
    by apply bool_decide_eq_true in Hi. }
  assert (Hperm : seqZ 0 (Z.of_nat len) ≡ₚ l).
  { apply submseteq_length_Permutation.
    - apply NoDup_submseteq; [apply NoDup_seqZ | done].
    - rewrite length_seqZ. lia. }
  split; [done | split].
  - rewrite <- Hperm. apply NoDup_seqZ.
  - intros i. rewrite <- Hperm, elem_of_seqZ. lia.
Qed.

Lemma is_permutation_of_range_Permutation (l : list Z) (len : nat) :
  is_permutation_of_range l len = true -> l ≡ₚ seqZ 0 (Z.of_nat len).
Proof.
  intros (Hlen & Hnd & Hin)%is_permutation_of_range_spec.
  apply NoDup_Permutation; [done | apply NoDup_seqZ |].
  intros i. rewrite Hin, elem_of_seqZ. lia.
Qed.

(** ** The shape table *)

Lemma case_labels_NoDup : NoDup MMA.case_labels.
Proof. compute_done. Qed.

Lemma recognized_iff_case_label (s : MMA.MMAShape) :
  recognized s <-> s ∈ MMA.case_labels.
Proof.
  unfold recognized, MMA.case_labels. split.
  - intros [op Hop]. destruct s; try discriminate Hop; set_solver.
  - intros Hin.
    repeat (apply elem_of_cons in Hin as [-> | Hin]; [simpl; eauto |]).
    by apply elem_of_nil in Hin.
Qed.

(** C1, as the specification counts: the configurations that the
    constructor accepts would be exactly 13. They are not: no list of 13
    shapes holds every shape that the constructor turns into a descriptor. *)
Lemma shape_table_not_13 :
  ~ (exists configurations : list MMA.MMAShape,
        length configurations = 13%nat
        /\ forall s, recognized s <-> s ∈ configurations).
Proof.
  intros (l & Hlen & Hl).
  assert (Hsub : MMA.case_labels ⊆ l).
  { intros s Hs. apply Hl, recognized_iff_case_label, Hs. }
  apply NoDup_submseteq in Hsub; [| apply case_labels_NoDup].
  apply submseteq_length in Hsub. rewrite Hlen in Hsub.
  vm_compute in Hsub. lia.
Qed.

(** C1, amended: the constructor of [MMAOp] is a case mapping over exactly
    14 named configurations. For each of them it returns the descriptor of
    that shape whose (m, n, k, blocks) is the tuple written in the name of
    the enumerator, so [M32xN8xK16_B1] gives (32, 8, 16, 1); for every
    other value of the enumeration it stops in the assertion
    "Invalid MMA shape." and returns nothing. *)
Theorem shape_table :
  NoDup MMA.case_labels
  /\ length MMA.case_labels = 14%nat
  /\ (forall s, recognized s <-> s ∈ MMA.case_labels)
  /\ (forall s op, MMA.MMAOp_new s = Returned op ->
        MMA.getShapeType op = s /\ descriptor_tuple op = documented_tuple s)
  /\ (exists op, MMA.MMAOp_new MMA.M32xN8xK16_B1 = Returned op
                 /\ descriptor_tuple op = [32; 8; 16; 1])
  /\ (forall s, s ∉ MMA.case_labels ->
        MMA.MMAOp_new s = AssertionFailed "Invalid MMA shape.").
Proof.
  split; [apply case_labels_NoDup |].
  split; [reflexivity |].
  split; [apply recognized_iff_case_label |].
  split; [| split].
  - intros s op Hop.
    destruct s; simpl in Hop; try discriminate Hop;
      injection Hop as <-; split; reflexivity.
  - eexists. split; reflexivity.
  - intros s Hs. destruct s; try reflexivity;
      exfalso; apply Hs; unfold MMA.case_labels; set_solver.
Qed.

Lemma shape_table_witness :
  MMA.MMAOp_new MMA.M8xN32xK16_B1 = Returned (MMA.mkMMAOp MMA.M8xN32xK16_B1 8 32 16 1)
  /\ descriptor_tuple (MMA.mkMMAOp MMA.M8xN32xK16_B1 8 32 16 1)
     = documented_tuple MMA.M8xN32xK16_B1.
Proof.
  split; [reflexivity |].
  apply (proj1 (proj2 (proj2 (proj2 shape_table))) MMA.M8xN32xK16_B1).
  reflexivity.
Defined.

(** X17: the numbers that occur in a constructed descriptor: m and n are
    8, 16, 32 or 64, k is 1, 2, 4, 8 or 16, and there are 1, 2 or 4 blocks. *)
Lemma descriptor_ranges (s : MMA.MMAShape) (op : MMA.MMAOp) :
  MMA.MMAOp_new s = Returned op ->
  MMA.m op ∈ [8; 16; 32; 64]
  /\ MMA.n op ∈ [8; 16; 32; 64]
  /\ MMA.k op ∈ [1; 2; 4; 8; 16]
  /\ MMA.blocks op ∈ [1; 2; 4].
Proof.
  intros Hop.
  destruct s; simpl in Hop; try discriminate Hop; injection Hop as <-; simpl;
    repeat split; compute_done.
Qed.

(** ** Offset maps *)

Lemma offset_map_cases (op : MMA.MMAOp) :
  (MMA.getNumBlocks op = 2 \/ MMA.m op = 32 ->
     MMA.getOffsetMap op
       = [0; 4; 1; 5; 2; 6; 3; 7; 8; 12; 9; 13; 10; 14; 11; 15;
          16; 20; 17; 21; 18; 22; 19; 23; 24; 28; 25; 29; 26; 30; 27; 31]
     /\ MMA.getOffsetMapSize op = (16, 2))
  /\ (~ (MMA.getNumBlocks op = 2 \/ MMA.m op = 32) ->
     MMA.getOffsetMap op
       = [0; 4; 8; 12; 1; 5; 9; 13; 2; 6; 10; 14; 3; 7; 11; 15]
     /\ MMA.getOffsetMapSize op = (4, 4)).
Proof.
  unfold MMA.getOffsetMap, MMA.getOffsetMapSize.
  destruct (_ || _) eqn:Hc.
  - split; [done |]. intros Hn. exfalso. apply Hn.
    apply orb_true_iff in Hc as [Hc | Hc]; apply Z.eqb_eq in Hc; auto.
  - split; [| done]. intros [Hb | Hm]; exfalso;
      apply orb_false_iff in Hc as [Hc1 Hc2];
      apply Z.eqb_neq in Hc1, Hc2; contradiction.
Qed.

(** C2: for every constructed descriptor, [blocks == 2] or [m == 32]
    selects the table of 32 entries with the shape (16, 2), anything else
    the table of 16 entries with the shape (4, 4); the length of the map is
    always rows times columns of the shape. *)
Theorem offset_map_selection (s : MMA.MMAShape) (op : MMA.MMAOp) :
  MMA.MMAOp_new s = Returned op ->
  (MMA.getNumBlocks op = 2 \/ MMA.m op = 32 ->
     MMA.getOffsetMap op
       = [0; 4; 1; 5; 2; 6; 3; 7; 8; 12; 9; 13; 10; 14; 11; 15;
          16; 20; 17; 21; 18; 22; 19; 23; 24; 28; 25; 29; 26; 30; 27; 31]
     /\ length (MMA.getOffsetMap op) = 32%nat
     /\ MMA.getOffsetMapSize op = (16, 2))
  /\ (~ (MMA.getNumBlocks op = 2 \/ MMA.m op = 32) ->
     MMA.getOffsetMap op
       = [0; 4; 8; 12; 1; 5; 9; 13; 2; 6; 10; 14; 3; 7; 11; 15]
     /\ length (MMA.getOffsetMap op) = 16%nat
     /\ MMA.getOffsetMapSize op = (4, 4))
  /\ Z.of_nat (length (MMA.getOffsetMap op))
     = (MMA.getOffsetMapSize op).1 * (MMA.getOffsetMapSize op).2.
Proof.
  intros _. destruct (offset_map_cases op) as [H32 H16].
  split; [| split].
  - intros Hc. destruct (H32 Hc) as [-> ->]. done.
  - intros Hc. destruct (H16 Hc) as [-> ->]. done.
  - destruct (decide (MMA.getNumBlocks op = 2 \/ MMA.m op = 32)) as [Hc | Hc].
    + destruct (H32 Hc) as [-> ->]. reflexivity.
    + destruct (H16 Hc) as [-> ->]. reflexivity.
Qed.

Lemma offset_map_selection_witness :
  MMA.getOffsetMapSize (MMA.mkMMAOp MMA.M64xN64xK1_B2 64 64 1 2) = (16, 2)
  /\ length (MMA.getOffsetMap (MMA.mkMMAOp MMA.M16xN16xK4_B1 16 16 4 1)) = 16%nat.
Proof.
  split.
  - apply (proj1 (offset_map_selection MMA.M64xN64xK1_B2 _ eq_refl)).
    left. reflexivity.
  - apply (proj1 (proj2 (offset_map_selection MMA.M16xN16xK4_B1 _ eq_refl))).
    intros [H | H]; discriminate H.
Defined.

(** C10: each table that [getOffsetMap] returns is a permutation of its
    index range: the table of 32 entries of 0..31 and the table of 16
    entries of 0..15, so no index occurs twice and none is left out. *)
Theorem offset_map_permutation (op : MMA.MMAOp) :
  (MMA.getOffsetMap op ≡ₚ seqZ 0 32 \/ MMA.getOffsetMap op ≡ₚ seqZ 0 16)
  /\ MMA.getOffsetMap op ≡ₚ seqZ 0 (Z.of_nat (length (MMA.getOffsetMap op)))
  /\ NoDup (MMA.getOffsetMap op)
  /\ (forall i, i ∈ MMA.getOffsetMap op
                <-> 0 <= i < Z.of_nat (length (MMA.getOffsetMap op))).
Proof.
  assert (Hp : is_permutation_of_range (MMA.getOffsetMap op)
                 (length (MMA.getOffsetMap op)) = true).
  { unfold MMA.getOffsetMap. destruct (_ || _); vm_compute; reflexivity. }
  pose proof (is_permutation_of_range_Permutation _ _ Hp) as Hperm.
  apply is_permutation_of_range_spec in Hp as (_ & Hnd & Hin).
  split; [| done].
  revert Hperm. unfold MMA.getOffsetMap. destruct (_ || _); simpl; auto.
Qed.

(** C9: for every constructed descriptor, [getOperandShape] is (m, k) for
    A, (k, n) for B and (m, n) for the accumulator, and the empty shape for
    every other operand type. *)
Theorem operand_shapes (s : MMA.MMAShape) (op : MMA.MMAOp) :
  MMA.MMAOp_new s = Returned op ->
  MMA.getOperandShape op MMA.A = [MMA.m op; MMA.k op]
  /\ MMA.getOperandShape op MMA.B = [MMA.k op; MMA.n op]
  /\ MMA.getOperandShape op MMA.Acc = [MMA.m op; MMA.n op]
  /\ (forall role, role ∉ loadable_operands -> MMA.getOperandShape op role = []).
Proof.
  intros _. repeat split.
  intros role Hrole. destruct role; try reflexivity;
    exfalso; apply Hrole; unfold loadable_operands; set_solver.
Qed.

Lemma operand_shapes_witness :
  MMA.getOperandShape (MMA.mkMMAOp MMA.M32xN8xK16_B1 32 8 16 1) MMA.A = [32; 16]
  /\ MMA.getOperandShape (MMA.mkMMAOp MMA.M32xN8xK16_B1 32 8 16 1) MMA.B = [16; 8]
  /\ MMA.getOperandShape (MMA.mkMMAOp MMA.M32xN8xK16_B1 32 8 16 1) MMA.Acc = [32; 8].
Proof.
  pose proof (operand_shapes MMA.M32xN8xK16_B1 _ eq_refl) as (HA & HB & HC & _).
  exact (conj HA (conj HB HC)).
Defined.


(** ** Verifiers *)

(** C8: the compute verifier succeeds exactly when A and B have the same
    element type, and reports "Invalid data types for A and B." when they
    differ. *)
Theorem compute_verifier (op : Verify.MMAComputeSyncOp) :
  (Verify.verify_MMAComputeSyncOp op = success
   <-> getElementType (Verify.opA op) = getElementType (Verify.opB op))
  /\ (getElementType (Verify.opA op) <> getElementType (Verify.opB op)
      -> Verify.verify_MMAComputeSyncOp op
         = failure "Invalid data types for A and B.").
Proof.
  unfold Verify.verify_MMAComputeSyncOp. cbv zeta.
  case_bool_decide as Hne.
  - split; [split; [discriminate | done] | done].
  - split; [done | intros H; contradiction].
Qed.

Lemma compute_verifier_witness :
  Verify.verify_MMAComputeSyncOp
    (Verify.mkMMAComputeSyncOp
       (mkMemRefType [16; 16] (FloatType F16)
          (Affine.makeStridedLinearLayoutMap [16; 1] 0) MemorySpace.Shared)
       (mkMemRefType [16; 16] (FloatType F32)
          (Affine.makeStridedLinearLayoutMap [16; 1] 0) MemorySpace.Shared))
  = failure "Invalid data types for A and B.".
Proof.
  apply (proj2 (compute_verifier _)). simpl. discriminate.
Defined.

Lemma allowed_memory_spaces_test (ms : MemorySpace.t) :
  bool_decide (ms <> MemorySpace.None)
  && bool_decide (ms <> MemorySpace.Shared)
  && bool_decide (ms <> MemorySpace.Global)
  && bool_decide (ms <> MemorySpace.Private)
  && bool_decide (ms <> MemorySpace.Tensor) = false
  <-> ms ∈ allowed_memory_spaces.
Proof.
  unfold allowed_memory_spaces.
  destruct ms; simpl; (split; [intros H; try discriminate H | intros H; try reflexivity]);
    try (by repeat constructor).
  not_listed H.
Qed.

Lemma loadable_operands_test (role : MMA.MMAOperandType) :
  bool_decide (role <> MMA.A) && bool_decide (role <> MMA.B)
  && bool_decide (role <> MMA.Acc) = false
  <-> role ∈ loadable_operands.
Proof.
  unfold loadable_operands.
  destruct role; simpl; (split; [intros H; try discriminate H | intros H; try reflexivity]);
    try (by repeat constructor).
  not_listed H.
Qed.

(** C6: the load verifier succeeds exactly when the memory space of the
    source is None, Shared, Global, Private or Tensor and the operand is A,
    B or the accumulator; the store verifier succeeds exactly when the
    memory space of the destination is one of those five; any other memory
    space is rejected with the diagnostic of the verifier. *)
Theorem load_store_verifiers :
  (forall op, Verify.verify_MMALoadSyncOp op = success
     <-> memorySpace (Verify.loadMemRefType op) ∈ allowed_memory_spaces
         /\ Verify.operandType op ∈ loadable_operands)
  /\ (forall op, Verify.verify_MMAStoreSyncOp op = success
     <-> memorySpace (Verify.storeMemRefType op) ∈ allowed_memory_spaces)
  /\ (forall op, memorySpace (Verify.loadMemRefType op) ∉ allowed_memory_spaces ->
        Verify.verify_MMALoadSyncOp op
        = failure "source memorySpace None, Shared, Private, Global or Tensor only allowed")
  /\ (forall op, memorySpace (Verify.storeMemRefType op) ∉ allowed_memory_spaces ->
        Verify.verify_MMAStoreSyncOp op
        = failure "destination memorySpace of None, Global, Shared, Private or Tensor only allowed")
  /\ (forall op, memorySpace (Verify.loadMemRefType op) ∈ allowed_memory_spaces ->
        Verify.operandType op ∉ loadable_operands ->
        Verify.verify_MMALoadSyncOp op = failure "only AOp, BOp and COp can be loaded").
Proof.
  unfold Verify.verify_MMALoadSyncOp, Verify.verify_MMAStoreSyncOp. cbv zeta.
  split; [| split; [| split; [| split]]]; intros op.
  - rewrite <- allowed_memory_spaces_test, <- loadable_operands_test.
    destruct (_ && _ && _ && _ && _); [split; [discriminate | intros [? _]; done] |].
    destruct (_ && _ && _); [split; [discriminate | intros [_ ?]; done] | done].
  - rewrite <- allowed_memory_spaces_test.
    destruct (_ && _ && _ && _ && _); [split; discriminate | done].
  - rewrite <- allowed_memory_spaces_test.
    destruct (_ && _ && _ && _ && _); done.
  - rewrite <- allowed_memory_spaces_test.
    destruct (_ && _ && _ && _ && _); done.
  - rewrite <- allowed_memory_spaces_test, <- loadable_operands_test.
    intros ->. destruct (_ && _ && _); done.
Qed.

Lemma load_store_verifiers_witness :
  Verify.verify_MMAStoreSyncOp
    (Verify.mkMMAStoreSyncOp
       (mkMemRefType [16; 16] (FloatType F32)
          (Affine.makeStridedLinearLayoutMap [16; 1] 0) (MemorySpace.other 4)))
  = failure "destination memorySpace of None, Global, Shared, Private or Tensor only allowed".
Proof.
  apply (proj1 (proj2 (proj2 (proj2 load_store_verifiers)))).
  simpl. unfold allowed_memory_spaces. intros Hin. not_listed Hin.
Defined.

Lemma block_cache_checks (NDEBUG : bool) (op : Verify.GPUBlockCacheOp) :
  (length (Verify.tileShape op) <> 2%nat ->
     Verify.verify_GPUBlockCacheOp NDEBUG op
     = Returned (failure "Only 2-D tiles are supported."))
  /\ (length (Verify.tileShape op) = 2%nat ->
      length (getShape (Verify.dest op)) <> 2%nat ->
      Verify.verify_GPUBlockCacheOp NDEBUG op
      = Returned (failure "Only 2-D destination memrefs are supported."))
  /\ (length (Verify.tileShape op) = 2%nat ->
      length (getShape (Verify.dest op)) = 2%nat ->
      Verify.workPerThread op < 1 \/ Verify.vecWidth op < 1
      \/ ~ (Verify.vecWidth op | Verify.workPerThread op) ->
      Verify.verify_GPUBlockCacheOp NDEBUG op
      = Returned (failure "Work per thread (WPT) must be >= 1 and vector width must be >= 1 and WPT must be a multiple of vector width.")).
Proof.
  unfold Verify.verify_GPUBlockCacheOp. cbv zeta.
  split; [| split].
  - intros Ht. by rewrite bool_decide_eq_true_2.
  - intros Ht Hd. rewrite bool_decide_eq_false_2 by (intros H; contradiction).
    by rewrite bool_decide_eq_true_2.
  - intros Ht Hd Hbad.
    rewrite !bool_decide_eq_false_2 by (intros H; contradiction).
    destruct (Z.ltb_spec (Verify.workPerThread op) 1) as [|Hw]; [done |].
    destruct (Z.ltb_spec (Verify.vecWidth op) 1) as [|Hv]; [done |].
    destruct (Z.eqb_spec (Z.rem (Verify.workPerThread op) (Verify.vecWidth op)) 0)
      as [Hrem |]; [| done].
    apply Z.rem_divide in Hrem; [| lia].
    exfalso. destruct Hbad as [? | [? | ?]]; [lia | lia | contradiction].
Qed.

Lemma block_cache_outcomes (NDEBUG : bool) (op : Verify.GPUBlockCacheOp) :
  (block_cache_rejected op ->
     exists diagnostic,
       Verify.verify_GPUBlockCacheOp NDEBUG op = Returned (failure diagnostic))
  /\ (~ block_cache_rejected op ->
      (forall diagnostic,
          Verify.verify_GPUBlockCacheOp NDEBUG op <> Returned (failure diagnostic))
      /\ (NDEBUG = true ->
          Verify.verify_GPUBlockCacheOp NDEBUG op = Returned success)
      /\ (shared_shape_matches op ->
          Verify.verify_GPUBlockCacheOp NDEBUG op = Returned success)
      /\ (NDEBUG = false -> ~ shared_shape_matches op ->
          exists msg, Verify.verify_GPUBlockCacheOp NDEBUG op = AssertionFailed msg)).
Proof.
  destruct (block_cache_checks NDEBUG op) as (Htile & Hdst & Hwork).
  split.
  - intros Hbad.
    destruct (decide (length (Verify.tileShape op) = 2%nat)) as [Ht |];
      [| eexists; by apply Htile].
    destruct (decide (length (getShape (Verify.dest op)) = 2%nat)) as [Hd |];
      [| eexists; by apply Hdst].
    eexists. apply Hwork; [done | done |].
    destruct Hbad as [? | [? | ?]]; [done | done | tauto].
  - intros Hok. unfold block_cache_rejected in Hok.
    assert (Ht : length (Verify.tileShape op) = 2%nat) by (apply dec_stable; tauto).
    assert (Hd : length (getShape (Verify.dest op)) = 2%nat) by (apply dec_stable; tauto).
    assert (Hw : 1 <= Verify.workPerThread op) by lia.
    assert (Hv : 1 <= Verify.vecWidth op) by lia.
    assert (Hdiv : (Verify.vecWidth op | Verify.workPerThread op)).
    { apply Z.rem_divide; [lia |].
      destruct (decide (Z.rem (Verify.workPerThread op) (Verify.vecWidth op) = 0))
        as [| Hrem]; [done | exfalso].
      apply Hok. do 4 right. intros Hdiv. apply Hrem, Z.rem_divide; [lia | done]. }
    clear Htile Hdst Hwork Hok.
    unfold Verify.verify_GPUBlockCacheOp, shared_shape_matches, getShape in *.
    cbv zeta.
    rewrite !bool_decide_eq_false_2 by (intros H; contradiction).
    apply Z.rem_divide in Hdiv; [| lia]. rewrite Hdiv.
    destruct (Z.ltb_spec (Verify.workPerThread op) 1); [lia |].
    destruct (Z.ltb_spec (Verify.vecWidth op) 1); [lia |].
    simpl orb. cbv iota.
    destruct (Verify.tileShape op) as [| t0 [| t1 [| ? ?]]]; try discriminate Ht.
    destruct (shape (Verify.dest op)) as [| d0 [| d1 [| ? ?]]]; try discriminate Hd.
    unfold assert_. simpl.
    destruct NDEBUG; simpl.
    { repeat split; try done. }
    case_bool_decide as Hms; destruct (Verify.dstRowMajor op); simpl;
      repeat match goal with
             | |- context [Z.eqb ?a ?b] => destruct (Z.eqb_spec a b); simpl
             end; subst; cbv [reverse rev_append];
      (split; [done |]); (split; [done |]);
      (split;
       [ intros Hm; first [reflexivity | specialize (Hm Hms); congruence]
       | intros _ Hm;
         first [exfalso; apply Hm; intros; congruence | eexists; reflexivity] ]).
Qed.

(** C7: the block-cache verifier returns a failure with a diagnostic
    whenever the tile shape is not 2-D, the destination is not of rank 2,
    the work per thread or the vector width is below 1, or the work per
    thread is not a multiple of the vector width. In every other case it
    returns no failure: the conditions on a destination in shared memory
    are assertions, which end the verifier only in a build that checks
    assertions and let it succeed otherwise. A work per thread of 3 with a
    vector width of 2 is rejected; 4 with 2 is not. *)
Theorem block_cache_verifier (NDEBUG : bool) (op : Verify.GPUBlockCacheOp) :
  (block_cache_rejected op ->
     exists diagnostic,
       Verify.verify_GPUBlockCacheOp NDEBUG op = Returned (failure diagnostic))
  /\ (~ block_cache_rejected op ->
      (forall diagnostic,
          Verify.verify_GPUBlockCacheOp NDEBUG op <> Returned (failure diagnostic))
      /\ (NDEBUG = true ->
          Verify.verify_GPUBlockCacheOp NDEBUG op = Returned success)
      /\ (shared_shape_matches op ->
          Verify.verify_GPUBlockCacheOp NDEBUG op = Returned success)
      /\ (NDEBUG = false -> ~ shared_shape_matches op ->
          exists msg, Verify.verify_GPUBlockCacheOp NDEBUG op = AssertionFailed msg))
  /\ (Verify.workPerThread op = 3 -> Verify.vecWidth op = 2 ->
      exists diagnostic,
        Verify.verify_GPUBlockCacheOp NDEBUG op = Returned (failure diagnostic))
  /\ (Verify.workPerThread op = 4 -> Verify.vecWidth op = 2 ->
      length (Verify.tileShape op) = 2%nat ->
      length (getShape (Verify.dest op)) = 2%nat ->
      forall diagnostic,
        Verify.verify_GPUBlockCacheOp NDEBUG op <> Returned (failure diagnostic)).
Proof.
  destruct (block_cache_outcomes NDEBUG op) as [Hbad Hok].
  split; [done | split; [done | split]].
  - intros Hw Hv. apply Hbad. unfold block_cache_rejected.
    rewrite Hw, Hv. do 4 right. intros [q Hq]. lia.
  - intros Hw Hv Ht Hd. apply Hok. unfold block_cache_rejected.
    rewrite Hw, Hv. intros [? | [? | [? | [? | Hdiv]]]]; try done.
    apply Hdiv. by exists 2.
Qed.

Lemma block_cache_verifier_witness :
  (exists diagnostic,
      Verify.verify_GPUBlockCacheOp false
        (Verify.mkGPUBlockCacheOp [16; 32]
           (mkMemRefType [16; 32] (FloatType F32)
              (Affine.makeStridedLinearLayoutMap [32; 1] 0) MemorySpace.Shared)
           3 2 true)
      = Returned (failure diagnostic))
  /\ Verify.verify_GPUBlockCacheOp false
        (Verify.mkGPUBlockCacheOp [16; 32]
           (mkMemRefType [32; 16] (FloatType F32)
              (Affine.makeStridedLinearLayoutMap [16; 1] 0) MemorySpace.Shared)
           4 2 false)
      = Returned success.
Proof.
  split.
  - apply (proj1 (proj2 (proj2 (block_cache_verifier false _)))); reflexivity.
  - apply (proj1 (proj2 (block_cache_verifier false _))).
    + unfold block_cache_rejected. simpl.
      intros [H | [H | [H | [H | H]]]]; try done. apply H. by exists 2.
    + intros _. reflexivity.
Defined.

(** ** Folding casts *)

Lemma signed_wrap_fits (w v : Z) :
  1 <= w -> - 2 ^ (w - 1) <= v < 2 ^ (w - 1) -> Fold.signed_wrap w v = v.
Proof.
  intros Hw Hv. unfold Fold.signed_wrap.
  assert (Hpow : 2 ^ w = 2 * 2 ^ (w - 1)).
  { rewrite <- Z.pow_succ_r by lia. f_equal. lia. }
  rewrite Z.mod_small by lia. lia.
Qed.

Lemma int64_of_fits (w v : Z) :
  1 <= w <= 64 -> - 2 ^ (w - 1) <= v < 2 ^ (w - 1) -> - 2 ^ 63 <= v < 2 ^ 63.
Proof.
  intros Hw Hv.
  assert (2 ^ (w - 1) <= 2 ^ 63) by (apply Z.pow_le_mono_r; lia). lia.
Qed.

Lemma getInt_signless (ty : MlirType) (v : Z) :
  isSignlessIntOrIndex ty = true -> - 2 ^ 63 <= v < 2 ^ 63 ->
  Fold.getInt (Fold.IntegerAttr ty v) = Returned v.
Proof.
  intros Hty Hv. unfold Fold.getInt. rewrite Hty.
  by rewrite bool_decide_eq_true_2.
Qed.

Lemma CastOp_fold_integer (op : Fold.CastOp) (operands : list Fold.Attribute)
    (ty : MlirType) (v : Z) :
  operands !! 0%nat = Some (Fold.IntegerAttr ty v) ->
  isSignlessIntOrIndex ty = true ->
  - 2 ^ 63 <= v < 2 ^ 63 ->
  Fold.CastOp_fold op operands
  = Returned
      (if isSignlessIntOrIndex (Fold.castType_ op)
       then Fold.FoldedAttr (Fold.IntegerAttr_get (Fold.castType_ op) v)
       else if isFloat (Fold.castType_ op)
       then Fold.FoldedAttr
              (Fold.FloatAttr_get (Fold.castType_ op) (Fold.int64_to_double v))
       else Fold.NotFolded).
Proof.
  intros H0 Hty Hv. unfold Fold.CastOp_fold. rewrite H0. cbv zeta.
  rewrite (getInt_signless _ _ Hty Hv). unfold mbind, outcome_bind.
  destruct (Fold.castType_ op) as [w [] | | kind | id]; reflexivity.
Qed.

(** A constant of signed or unsigned integer type cannot be read by
    [getInt]: a fold that needs its value stops in the assertion. *)
Lemma CastOp_fold_not_signless (op : Fold.CastOp) (operands : list Fold.Attribute)
    (ty : MlirType) (v : Z) :
  operands !! 0%nat = Some (Fold.IntegerAttr ty v) ->
  isSignlessIntOrIndex ty = false ->
  Fold.CastOp_fold op operands
  = if isSignlessIntOrIndexOrFloat (Fold.castType_ op)
    then AssertionFailed "must be signless integer"
    else Returned Fold.NotFolded.
Proof.
  intros H0 Hty. unfold Fold.CastOp_fold. rewrite H0. cbv zeta.
  unfold Fold.getInt. rewrite Hty. unfold mbind, outcome_bind.
  destruct (Fold.castType_ op) as [w [] | | kind | id]; reflexivity.
Qed.




(** Beyond that the conversion rounds: 2^53 + 1 becomes the double 2^53,
    and 100000 is beyond the largest half-precision float. *)
Example int64_to_double_rounds :
  Fold.int64_to_double (2 ^ 53 + 1) = Fold.exactly (2 ^ 53)
  /\ Fold.convert F16 (Fold.int64_to_double 100000) = Fold.infinite false
  /\ Fold.convert F32 (Fold.int64_to_double 16777217) = Fold.exactly 16777216.
Proof. repeat split; vm_compute; reflexivity. Qed.




(** [GetElementOp::fold] is the fold that returns its operand: when the
    operand already has the type of the result. *)
Lemma get_element_fold (op : Fold.GetElementOp) (operands : list Fold.Attribute) :
  (Fold.valueType (Fold.getElementOperand op) = Fold.getElementType_ op ->
     Fold.GetElementOp_fold op operands = Fold.FoldedValue (Fold.getElementOperand op))
  /\ (Fold.valueType (Fold.getElementOperand op) <> Fold.getElementType_ op ->
     Fold.GetElementOp_fold op operands = Fold.NotFolded).
Proof.
  unfold Fold.GetElementOp_fold. case_bool_decide; split; done.
Qed.

(** ** Building an external function *)

(** The plain builder leaves the entry block open: it has the arguments of
    the function and no operation yet. *)
Lemma function_build_leaves_body_open (builder : Func.OpBuilder)
    (result : Func.OperationState) (name : string) (type : Func.FunctionType)
    (target : Func.ExecutionTarget) :
  Func.regions result = [] ->
  Func.regions (Func.ValueFuncOp_build builder result name type target)
  = [[Func.mkBlock ((fun t => (t, Func.location result)) <$> Func.getInputs type) []]]
  /\ Func.structurally_valid (Func.ValueFuncOp_build builder result name type target)
     = false.
Proof.
  intros Hr. unfold Func.ValueFuncOp_build, Func.structurally_valid. simpl.
  rewrite Hr. split; reflexivity.
Qed.

(** C5: building a function with the external tag, from a state without
    regions, attaches the symbol name, the function type and the execution
    target (and the "external" marker); no operation of a body is created:
    the one block of the one region holds only a return without operands,
    so every block ends in a terminator. The builder is left where it was. *)
Theorem external_function_build (builder : Func.OpBuilder)
    (result : Func.OperationState) (name : string) (type : Func.FunctionType)
    (target : Func.ExecutionTarget) :
  Func.regions result = [] ->
  exists built,
    Func.ValueFuncOp_build_external builder result name type target
    = Returned (builder, built)
    /\ Func.attributes built
       = Func.attributes result
         ++ [(Func.SymbolAttrName, Func.StringAttr name);
             (Func.TypeAttrName, Func.TypeAttr type);
             (Func.ExecTargetAttrName, Func.ExecutionTargetAttr target);
             (Func.Named "external", Func.UnitAttr)]
    /\ (exists entry,
          Func.regions built = [[entry]]
          /\ Func.arguments entry
             = (fun t => (t, Func.location result)) <$> Func.getInputs type
          /\ exists ret,
               Func.operations entry = [ret]
               /\ Func.isTerminator ret = true
               /\ Func.opOperands ret = [])
    /\ Func.structurally_valid built = true.
Proof.
  intros Hr. destruct builder as [ip], result as [loc attrs regs].
  simpl in Hr. subst regs.
  eexists. split; [reflexivity |]. simpl.
  split; [by rewrite <- !app_assoc |].
  split; [| reflexivity].
  eexists. split; [reflexivity |]. split; [reflexivity |].
  eexists. split; [reflexivity |]. split; reflexivity.
Qed.

Lemma external_function_build_witness :
  exists built,
    Func.ValueFuncOp_build_external (Func.mkOpBuilder (Func.Outside 0))
      (Func.mkOperationState 7 [] []) "gemm"
      (Func.mkFunctionType [IndexType; FloatType F32] [FloatType F32])
      (Func.ExecutionTarget_value 1)
    = Returned (Func.mkOpBuilder (Func.Outside 0), built)
    /\ Func.structurally_valid built = true.
Proof.
  destruct (external_function_build (Func.mkOpBuilder (Func.Outside 0))
              (Func.mkOperationState 7 [] []) "gemm"
              (Func.mkFunctionType [IndexType; FloatType F32] [FloatType F32])
              (Func.ExecutionTarget_value 1) eq_refl)
    as (built & Hbuilt & _ & _ & Hvalid).
  exists built. exact (conj Hbuilt Hvalid).
Defined.

(** ** Reordering a buffer *)

Section BuildLoop.

Variable originalSizes : list Z.

(** The loop writes the size of dimension [dimOrder[i]] to position [i]
    and the position [i] to slot [dimOrder[i]]; without repeats in the
    order no slot is written twice. *)
Lemma build_loop_spec (dimOrder : list Z) :
  forall (index : nat) (permutedSizes : list Z) (affineMapOrder : list nat),
    (forall v, v ∈ dimOrder ->
               0 <= v < Z.of_nat (length originalSizes)
               /\ (Z.to_nat v < length affineMapOrder)%nat) ->
    (index + length dimOrder <= length permutedSizes)%nat ->
    NoDup dimOrder ->
    exists sizes order,
      Reorder.build_loop originalSizes dimOrder index permutedSizes affineMapOrder
      = Returned (sizes, order)
      /\ length sizes = length permutedSizes
      /\ length order = length affineMapOrder
      /\ (forall j v, dimOrder !! j = Some v ->
            sizes !! (index + j)%nat = originalSizes !! Z.to_nat v)
      /\ (forall i, (i < index)%nat -> sizes !! i = permutedSizes !! i)
      /\ (forall j v, dimOrder !! j = Some v ->
            order !! Z.to_nat v = Some (index + j)%nat)
      /\ (forall k, (forall v, v ∈ dimOrder -> Z.to_nat v <> k) ->
            order !! k = affineMapOrder !! k).
Proof.
  induction dimOrder as [| value rest IH]; intros index ps amo Hrange Hlen Hnd.
  - exists ps, amo. simpl. repeat split; try done.
  - apply list.NoDup_cons in Hnd as [Hfresh Hnd]. simpl in Hlen.
    destruct (Hrange value) as [Hv Hslot]; [left |].
    assert (Hat : exists size, Reorder.at_ originalSizes value = Some size
                               /\ originalSizes !! Z.to_nat value = Some size).
    { unfold Reorder.at_. rewrite bool_decide_eq_true_2 by lia.
      destruct (lookup_lt_is_Some_2 originalSizes (Z.to_nat value)) as [size Hs];
        [lia | eauto]. }
    destruct Hat as (size & Hat & Hsize).
    destruct (IH (S index) (<[index := size]> ps) (<[Z.to_nat value := index]> amo))
      as (sizes & order & Hrun & Hls & Hlo & Hsizes & Hkeep & Horder & Hother).
    { intros v Hin. rewrite length_insert. apply Hrange. by right. }
    { rewrite length_insert. lia. }
    { done. }
    exists sizes, order. simpl. rewrite Hat, bool_decide_eq_true_2 by done.
    rewrite length_insert in Hls. rewrite length_insert in Hlo.
    repeat split; try done.
    + intros [| j] v Hj; simpl in Hj.
      * injection Hj as <-. rewrite Nat.add_0_r, Hkeep by lia.
        rewrite list_lookup_insert_eq by lia. done.
      * replace (index + S j)%nat with (S index + j)%nat by lia. by apply Hsizes.
    + intros i Hi. rewrite Hkeep by lia. apply list_lookup_insert_ne. lia.
    + intros [| j] v Hj; simpl in Hj.
      * injection Hj as <-. rewrite Nat.add_0_r, Hother.
        -- by apply list_lookup_insert_eq.
        -- intros v Hin Heq. apply Hfresh.
           destruct (Hrange v) as [Hv' _]; [by right |].
           replace value with v by lia. done.
      * replace (index + S j)%nat with (S index + j)%nat by lia. by apply Horder.
    + intros k Hk. rewrite Hother.
      * apply list_lookup_insert_ne. apply Hk. left.
      * intros v Hin. apply Hk. by right.
Qed.

End BuildLoop.

Lemma weight_at_absent (weights : list Z) (targets : list nat) (j : nat) :
  j ∉ targets -> weight_at weights targets j = 0.
Proof.
  revert targets. induction weights as [| w weights IH]; intros [| t targets] Hj;
    simpl; try done.
  apply not_elem_of_cons in Hj as [Hne Hj].
  rewrite decide_False by done. rewrite IH by done. lia.
Qed.

Lemma weight_at_unique (weights : list Z) (targets : list nat) (j k : nat) (w : Z) :
  NoDup targets -> targets !! k = Some j -> weights !! k = Some w ->
  weight_at weights targets j = w.
Proof.
  revert targets k.
  induction weights as [| w0 weights IH]; intros [| t targets] k Hnd Ht Hw;
    try done.
  apply list.NoDup_cons in Hnd as [Hfresh Hnd]. simpl.
  destruct k as [| k]; simpl in Ht, Hw.
  - injection Ht as ->. injection Hw as ->.
    rewrite decide_True by done. rewrite weight_at_absent by done. lia.
  - rewrite decide_False.
    + rewrite (IH targets k) by done. lia.
    + intros ->. apply Hfresh. by eapply list_elem_of_lookup_2.
Qed.

(** Replacing the dimensions of a linear form by dimensions keeps its
    constant and moves its coefficients. *)
Lemma replaceDims_dims (dims : nat) (offset : Z) (strides : list Z) (targets : list nat) :
  let e := Affine.replaceDims dims (Affine.mkAffineExpr offset strides)
             (Affine.getAffineDimExpr dims <$> targets) in
  Affine.constant e = offset
  /\ length (Affine.coefficients e) = dims
  /\ forall j, (j < dims)%nat ->
       Affine.coefficients e !! j = Some (weight_at strides targets j).
Proof.
  unfold Affine.replaceDims. simpl.
  revert targets.
  induction strides as [| r strides IH]; intros targets.
  { simpl. split; [done |]. split; [apply length_replicate |].
    intros j Hj. by apply lookup_replicate_2. }
  destruct targets as [| t targets].
  { simpl. split; [done |]. split; [apply length_replicate |].
    intros j Hj. by apply lookup_replicate_2. }
  destruct (IH targets) as (Hc & Hl & Hco). csimpl.
  rewrite Hc. split; [lia |]. split.
  - rewrite length_zip_with, length_fmap, length_insert, length_replicate, Hl. lia.
  - intros j Hj. rewrite lookup_zip_with, list_lookup_fmap, Hco by done.
    destruct (decide (t = j)) as [-> | Hne].
    + rewrite list_lookup_insert_eq by (rewrite length_replicate; lia).
      simpl. f_equal. lia.
    + rewrite list_lookup_insert_ne by done.
      rewrite lookup_replicate_2 by done. simpl. f_equal. lia.
Qed.

Lemma strides_length (t : MemRefType) (strides : list Z) (offset : Z) :
  getStridesAndOffset t = Some (strides, offset) -> length strides = getRank t.
Proof.
  unfold getStridesAndOffset.
  destruct (Affine.results (layout t)) as [| e [| ? ?]]; try done.
  case_bool_decide as Hwf; [| done]. intros [= <- <-]. tauto.
Qed.

Lemma gather_lookup (v order : list Z) (j : nat) (p : Z) :
  order !! j = Some p -> 0 <= p < Z.of_nat (length v) ->
  gather v order !! j = v !! Z.to_nat p.
Proof.
  intros Hj Hp. unfold gather. rewrite list_lookup_fmap, Hj. simpl.
  symmetry. apply list_lookup_lookup_total_lt. lia.
Qed.

Lemma gather_length (v order : list Z) : length (gather v order) = length order.
Proof. unfold gather. apply length_fmap. Qed.

(** One reorder: the sizes and the strides of the source, gathered in the
    order asked for; the offset, element type and memory space unchanged. *)
Lemma ReorderOp_build_result (sourceType : MemRefType) (order : list Z)
    (strides : list Z) (offset : Z) :
  getStridesAndOffset sourceType = Some (strides, offset) ->
  is_permutation_of_range order (getRank sourceType) = true ->
  exists resultType,
    Reorder.ReorderOp_build sourceType order = Returned resultType
    /\ getShape resultType = gather (getShape sourceType) order
    /\ getStridesAndOffset resultType = Some (gather strides order, offset)
    /\ getElementType resultType = getElementType sourceType
    /\ memorySpace resultType = memorySpace sourceType.
Proof.
  intros Hstr Hperm.
  pose proof (strides_length _ _ _ Hstr) as Hlstr.
  apply is_permutation_of_range_spec in Hperm as (Hlen & Hnd & Hin).
  unfold getRank, getShape in *.
  destruct (build_loop_spec (shape sourceType) order 0
              (replicate (length order) 0) (replicate (length order) 0%nat))
    as (sizes & amo & Hrun & Hls & Hla & Hsizes & _ & Hamo & _).
  { intros v Hv. apply Hin in Hv. rewrite length_replicate. lia. }
  { rewrite length_replicate. lia. }
  { done. }
  rewrite length_replicate in Hls. rewrite length_replicate in Hla.
  assert (Hshape : sizes = gather (shape sourceType) order).
  { apply list_eq. intros i.
    destruct (order !! i) as [p |] eqn:Hp.
    - rewrite (gather_lookup _ _ _ _ Hp).
      + apply (Hsizes i p Hp).
      + apply Hin. by eapply list_elem_of_lookup_2.
    - apply lookup_ge_None in Hp.
      rewrite !(proj2 (lookup_ge_None _ _)); [done | |]; [rewrite gather_length |]; lia. }
  assert (Hamo_nodup : NoDup amo).
  { apply NoDup_alt. intros a b x Ha Hb.
    assert (Hpos : forall c, amo !! c = Some x -> order !! x = Some (Z.of_nat c)).
    { intros c Hc. pose proof (lookup_lt_Some _ _ _ Hc) as Hclt.
      assert (Hcin : Z.of_nat c ∈ order) by (apply Hin; lia).
      apply list_elem_of_lookup in Hcin as [j Hj].
      pose proof (Hamo j _ Hj) as Hw. rewrite Nat2Z.id in Hw. simpl in Hw.
      congruence. }
    apply Hpos in Ha, Hb. rewrite Ha in Hb. injection Hb. lia. }
  assert (Hamo_perm : Affine.getPermutationMap amo
                      = Some (Affine.mkAffineMap (length amo)
                                (Affine.getAffineDimExpr (length amo) <$> amo))).
  { unfold Affine.getPermutationMap.
    assert (is_permutation_of_range (Z.of_nat <$> amo) (length amo) = true) as ->;
      [| done].
    unfold is_permutation_of_range. apply andb_true_iff.
    split; [apply bool_decide_eq_true, length_fmap |].
    apply forallb_forall. intros x Hx%list_elem_of_In%elem_of_seqZ.
    apply bool_decide_eq_true.
    destruct (lookup_lt_is_Some_2 order (Z.to_nat x)) as [v Hv]; [lia |].
    apply list_elem_of_fmap. exists (Z.to_nat x). split; [lia |].
    eapply list_elem_of_lookup_2. apply (Hamo _ _ Hv). }
  unfold Reorder.ReorderOp_build. cbv zeta. unfold getShape.
  rewrite Hrun. unfold mbind, outcome_bind. rewrite Hamo_perm, Hstr.
  eexists. split; [reflexivity |].
  split; [done |]. split; [| done].
  unfold getStridesAndOffset, getRank. simpl.
  destruct (replaceDims_dims (length amo) offset strides amo) as (Hc & Hl & Hco).
  cbv zeta in Hc, Hl, Hco.
  rewrite bool_decide_eq_true_2 by (rewrite Hl; lia).
  rewrite Hc. do 2 f_equal.
  apply list_eq. intros j.
  destruct (order !! j) as [p |] eqn:Hp.
  - assert (Hpr : 0 <= p < Z.of_nat (length (shape sourceType))).
    { apply Hin. by eapply list_elem_of_lookup_2. }
    rewrite (gather_lookup _ _ _ _ Hp) by lia.
    pose proof (lookup_lt_Some _ _ _ Hp) as Hjlt.
    rewrite Hco by lia.
    destruct (lookup_lt_is_Some_2 strides (Z.to_nat p)) as [w Hw]; [lia |].
    rewrite Hw. f_equal.
    apply (weight_at_unique _ _ _ (Z.to_nat p)); [done | | done].
    apply (Hamo j p Hp).
  - apply lookup_ge_None in Hp.
    rewrite !(proj2 (lookup_ge_None _ _)); [done | |]; [rewrite gather_length |]; lia.
Qed.

Lemma is_inverse_order_spec (P Q : list Z) :
  Reorder.is_inverse_order P Q = true ->
  length Q = length P
  /\ forall i v, P !! i = Some v -> Reorder.at_ Q v = Some (Z.of_nat i).
Proof.
  unfold Reorder.is_inverse_order.
  rewrite andb_true_iff, bool_decide_eq_true, forallb_forall.
  intros [Hlen Hall]. split; [done |].
  intros i v Hi.
  pose proof (lookup_lt_Some _ _ _ Hi) as Hlt.
  specialize (Hall (Z.of_nat i, v)). simpl in Hall.
  assert (Hin : In (Z.of_nat i, v) (zip (seqZ 0 (Z.of_nat (length P))) P)).
  { apply list_elem_of_In, list_elem_of_lookup. exists i.
    apply lookup_zip_with_Some. exists (Z.of_nat i), v.
    split; [done | split; [| done]].
    by rewrite lookup_seqZ_lt by lia. }
  apply Hall in Hin. by apply bool_decide_eq_true in Hin.
Qed.

Section RoundTrip.

Variables (P Q : list Z) (rank : nat).
Hypothesis P_permutation : is_permutation_of_range P rank = true.
Hypothesis Q_inverse : Reorder.is_inverse_order P Q = true.

Lemma inverse_order_lookup (j : nat) :
  (j < rank)%nat ->
  exists i, Q !! j = Some (Z.of_nat i) /\ P !! i = Some (Z.of_nat j) /\ (i < rank)%nat.
Proof.
  intros Hj.
  apply is_permutation_of_range_spec in P_permutation as (Hlen & _ & Hin).
  apply is_inverse_order_spec in Q_inverse as (_ & Hinv).
  assert (Hjin : Z.of_nat j ∈ P) by (apply Hin; lia).
  apply list_elem_of_lookup in Hjin as [i Hi].
  exists i. split; [| split; [done |]].
  - specialize (Hinv i _ Hi). unfold Reorder.at_ in Hinv.
    rewrite bool_decide_eq_true_2, Nat2Z.id in Hinv by lia. done.
  - apply lookup_lt_Some in Hi. lia.
Qed.

(** The inverse of a permutation order is a permutation order. *)
Lemma inverse_order_permutation : is_permutation_of_range Q rank = true.
Proof.
  pose proof (is_permutation_of_range_spec _ _ P_permutation) as (Hlen & _ & _).
  pose proof (is_inverse_order_spec _ _ Q_inverse) as (HlenQ & Hinv).
  unfold is_permutation_of_range.
  apply andb_true_iff. split; [apply bool_decide_eq_true; lia |].
  apply forallb_forall. intros x Hx%list_elem_of_In%elem_of_seqZ.
  apply bool_decide_eq_true.
  destruct (lookup_lt_is_Some_2 P (Z.to_nat x)) as [v Hv]; [lia |].
  specialize (Hinv _ _ Hv). unfold Reorder.at_ in Hinv.
  case_bool_decide; [| done].
  rewrite Z2Nat.id in Hinv by lia. by eapply list_elem_of_lookup_2.
Qed.

(** Gathering by an order and then by its inverse gives the list back. *)
Lemma gather_inverse (v : list Z) :
  length v = rank -> gather (gather v P) Q = v.
Proof.
  intros Hv.
  pose proof (is_permutation_of_range_spec _ _ P_permutation) as (Hlen & _ & _).
  pose proof (is_inverse_order_spec _ _ Q_inverse) as (HlenQ & _).
  apply list_eq. intros j.
  destruct (decide (j < rank)%nat) as [Hj | Hj].
  - destruct (inverse_order_lookup j Hj) as (i & HQ & HP & Hi).
    rewrite (gather_lookup _ _ _ _ HQ) by (rewrite gather_length; lia).
    rewrite Nat2Z.id. rewrite (gather_lookup _ _ _ _ HP) by lia.
    by rewrite Nat2Z.id.
  - assert (gather (gather v P) Q !! j = None) as ->
      by (apply lookup_ge_None; rewrite gather_length; lia).
    symmetry. apply lookup_ge_None. lia.
Qed.

End RoundTrip.

(** C3: for every buffer type with computable strides and offset and
    every permutation order [P] over its rank, a reorder by [P] followed by
    a reorder of the result by the inverse of [P] gives a buffer type with
    the shape, the strides and the offset of the source (and its element
    type and memory space). *)
Theorem reorder_round_trip (sourceType : MemRefType) (P Q : list Z)
    (strides : list Z) (offset : Z) :
  getStridesAndOffset sourceType = Some (strides, offset) ->
  is_permutation_of_range P (getRank sourceType) = true ->
  Reorder.is_inverse_order P Q = true ->
  exists reordered restored,
    Reorder.ReorderOp_build sourceType P = Returned reordered
    /\ Reorder.ReorderOp_build reordered Q = Returned restored
    /\ getShape restored = getShape sourceType
    /\ getStridesAndOffset restored = Some (strides, offset)
    /\ Reorder.same_structure restored sourceType
    /\ getElementType restored = getElementType sourceType
    /\ memorySpace restored = memorySpace sourceType.
Proof.
  intros Hstr HP HQ.
  pose proof (strides_length _ _ _ Hstr) as Hlstr.
  pose proof (is_permutation_of_range_spec _ _ HP) as (HlenP & _ & _).
  destruct (ReorderOp_build_result _ _ _ _ Hstr HP)
    as (t1 & Hb1 & Hshape1 & Hstr1 & Hel1 & Hms1).
  assert (Hrank1 : getRank t1 = getRank sourceType).
  { unfold getRank. unfold getShape in Hshape1.
    rewrite Hshape1, gather_length. done. }
  pose proof (inverse_order_permutation P Q _ HP HQ) as HQperm.
  rewrite <- Hrank1 in HQperm.
  destruct (ReorderOp_build_result _ _ _ _ Hstr1 HQperm)
    as (t2 & Hb2 & Hshape2 & Hstr2 & Hel2 & Hms2).
  exists t1, t2.
  rewrite Hshape1 in Hshape2.
  rewrite (gather_inverse P Q _ HP HQ) in Hshape2 by done.
  rewrite (gather_inverse P Q _ HP HQ) in Hstr2 by done.
  unfold Reorder.same_structure.
  rewrite Hshape2, Hstr2, Hstr, Hel2, Hel1, Hms2, Hms1. done.
Qed.

Lemma reorder_round_trip_witness :
  exists reordered restored,
    Reorder.ReorderOp_build
      (mkMemRefType [2; 3; 4] (FloatType F32)
         (Affine.makeStridedLinearLayoutMap [12; 4; 1] 0) MemorySpace.Global)
      [2; 0; 1]
    = Returned reordered
    /\ Reorder.ReorderOp_build reordered [1; 2; 0] = Returned restored
    /\ getShape restored = [2; 3; 4]
    /\ getStridesAndOffset restored = Some ([12; 4; 1], 0).
Proof.
  destruct (reorder_round_trip
              (mkMemRefType [2; 3; 4] (FloatType F32)
                 (Affine.makeStridedLinearLayoutMap [12; 4; 1] 0) MemorySpace.Global)
              [2; 0; 1] [1; 2; 0] [12; 4; 1] 0 eq_refl eq_refl eq_refl)
    as (t1 & t2 & H1 & H2 & Hshape & Hstrides & _).
  exists t1, t2. exact (conj H1 (conj H2 (conj Hshape Hstrides))).
Defined.

Example reorder_example :
  Reorder.ReorderOp_build
    (mkMemRefType [2; 3; 4] (FloatType F32)
       (Affine.makeStridedLinearLayoutMap [12; 4; 1] 0) MemorySpace.Global)
    [2; 0; 1]
  = Returned
      (mkMemRefType [4; 2; 3] (FloatType F32)
         (Affine.makeStridedLinearLayoutMap [1; 12; 4] 0) MemorySpace.Global).
Proof. reflexivity. Qed.

(** ** Chained reorders *)

Section Chain.

Variables (P P' : list Z) (rank : nat).
Hypothesis P_permutation : is_permutation_of_range P rank = true.
Hypothesis P'_permutation : is_permutation_of_range P' rank = true.

Lemma gather_gather (v : list Z) :
  length v = rank -> gather (gather v P) P' = gather v (gather P P').
Proof.
  intros Hv.
  pose proof (is_permutation_of_range_spec _ _ P_permutation) as (Hlen & _ & Hin).
  pose proof (is_permutation_of_range_spec _ _ P'_permutation) as (Hlen' & _ & Hin').
  apply list_eq. intros j. unfold gather at 1 3.
  rewrite !list_lookup_fmap.
  destruct (P' !! j) as [a |] eqn:Ha; simpl.
  - assert (Har : 0 <= a < Z.of_nat rank)
      by (apply Hin'; by eapply list_elem_of_lookup_2).
    rewrite (gather_lookup _ _ _ _ Ha) by lia.
    destruct (lookup_lt_is_Some_2 P (Z.to_nat a)) as [p Hp]; [lia |].
    rewrite Hp. simpl. f_equal.
    apply list_lookup_total_correct.
    assert (Hpr : 0 <= p < Z.of_nat rank)
      by (apply Hin; by eapply list_elem_of_lookup_2).
    rewrite (gather_lookup _ _ _ _ Hp) by lia.
    apply list_lookup_lookup_total_lt. lia.
  - assert (gather P P' !! j = None) as ->; [| done].
    apply lookup_ge_None. rewrite gather_length. by apply lookup_ge_None.
Qed.

Lemma gather_permutation : is_permutation_of_range (gather P P') rank = true.
Proof.
  pose proof (is_permutation_of_range_spec _ _ P_permutation) as (Hlen & _ & Hin).
  pose proof (is_permutation_of_range_spec _ _ P'_permutation) as (Hlen' & _ & Hin').
  unfold is_permutation_of_range. apply andb_true_iff.
  split; [apply bool_decide_eq_true; by rewrite gather_length |].
  apply forallb_forall. intros x Hx%list_elem_of_In%elem_of_seqZ.
  apply bool_decide_eq_true.
  assert (Hxin : x ∈ P) by (apply Hin; lia).
  apply list_elem_of_lookup in Hxin as [a Ha].
  pose proof (lookup_lt_Some _ _ _ Ha) as Halt.
  assert (Hain : Z.of_nat a ∈ P') by (apply Hin'; lia).
  apply list_elem_of_lookup in Hain as [b Hb].
  apply list_elem_of_lookup. exists b.
  rewrite (gather_lookup _ _ _ _ Hb) by lia.
  by rewrite Nat2Z.id.
Qed.

End Chain.

(** X16: a reorder of an already reordered buffer composes with the
    reorder that the source carries: two reorders in a row give the shape,
    strides and offset of the single reorder by the composed order. *)
Lemma reorder_chain (sourceType : MemRefType) (P P' : list Z)
    (strides : list Z) (offset : Z) :
  getStridesAndOffset sourceType = Some (strides, offset) ->
  is_permutation_of_range P (getRank sourceType) = true ->
  is_permutation_of_range P' (getRank sourceType) = true ->
  exists first second direct,
    Reorder.ReorderOp_build sourceType P = Returned first
    /\ Reorder.ReorderOp_build first P' = Returned second
    /\ Reorder.ReorderOp_build sourceType (gather P P') = Returned direct
    /\ Reorder.same_structure second direct.
Proof.
  intros Hstr HP HP'.
  pose proof (strides_length _ _ _ Hstr) as Hlstr.
  pose proof (is_permutation_of_range_spec _ _ HP) as (HlenP & _ & _).
  destruct (ReorderOp_build_result _ _ _ _ Hstr HP)
    as (t1 & Hb1 & Hshape1 & Hstr1 & _).
  assert (Hrank1 : getRank t1 = getRank sourceType).
  { unfold getRank. unfold getShape in Hshape1.
    rewrite Hshape1, gather_length. done. }
  pose proof HP' as HP'1. rewrite <- Hrank1 in HP'1.
  destruct (ReorderOp_build_result _ _ _ _ Hstr1 HP'1)
    as (t2 & Hb2 & Hshape2 & Hstr2 & _).
  destruct (ReorderOp_build_result _ _ _ _ Hstr (gather_permutation P P' _ HP HP'))
    as (t12 & Hb12 & Hshape12 & Hstr12 & _).
  exists t1, t2, t12. repeat split; try done.
  - rewrite Hshape2, Hshape12, Hshape1.
    by apply (gather_gather P P' _ HP HP').
  - rewrite Hstr2, Hstr12. do 2 f_equal.
    by apply (gather_gather P P' _ HP HP').
Qed.

(** * Further properties of the code *)

(** ** Verifying a function against its entry block *)

Lemma verify_loop_spec (fnInputTypes : list MlirType) (blockArguments : list MlirType) :
  forall i : nat,
    (i + length blockArguments <= length fnInputTypes)%nat ->
    (FuncOp.verify_loop fnInputTypes blockArguments i = Returned FuncOp.verified
     <-> blockArguments = take (length blockArguments) (drop i fnInputTypes))
    /\ (forall j a s,
          FuncOp.verify_loop fnInputTypes blockArguments i
          = Returned (FuncOp.argumentTypeMismatch j a s) ->
          (i <= j)%nat
          /\ blockArguments !! (j - i)%nat = Some a
          /\ fnInputTypes !! j = Some s
          /\ a <> s
          /\ take (j - i) blockArguments = take (j - i) (drop i fnInputTypes)).
Proof.
  induction blockArguments as [| argumentType rest IH]; intros i Hlen; simpl in *.
  - split; [done | intros j a s [=]].
  - destruct (lookup_lt_is_Some_2 fnInputTypes i) as [inputType Hin]; [lia |].
    rewrite Hin. rewrite (drop_S _ _ _ Hin). simpl.
    destruct (IH (S i)) as [IHok IHbad]; [lia |].
    case_bool_decide as Hne.
    + split.
      * split; [intros [=] | intros [= ->]; done].
      * intros j a s [= <- <- <-]. rewrite Nat.sub_diag. done.
    + subst inputType. split.
      * rewrite IHok. split; [by intros <- | by intros [= <-]].
      * intros j a s Hrun. destruct (IHbad j a s Hrun) as (Hj & Ha & Hs & Has & Hpre).
        replace (j - i)%nat with (S (j - S i)) by lia. simpl.
        rewrite Hpre. repeat split; try done. lia.
Qed.



Lemma argumentTypes_built (inputs : list MlirType) (loc : Func.Location)
    (ops : list Func.Operation) :
  FuncOp.argumentTypes (Func.mkBlock ((fun t => (t, loc)) <$> inputs) ops) = inputs.
Proof.
  unfold FuncOp.argumentTypes. simpl. rewrite <- list_fmap_compose.
  induction inputs as [| t inputs IH]; [done |]. csimpl. by rewrite IH.
Qed.

Lemma verify_loop_same (inputs : list MlirType) :
  FuncOp.verify_loop inputs inputs 0 = Returned FuncOp.verified.
Proof.
  destruct (verify_loop_spec inputs inputs 0) as [Hok _]; [lia |].
  apply Hok. by rewrite drop_0, firstn_all.
Qed.

(** X2: what the builders build verifies: the function made of the type
    given to [ValueFuncOp::build] and of the region it creates passes
    [verify], and so does the one of the external builder, whether the
    function counts as external or not. *)
Theorem built_function_verifies (builder : Func.OpBuilder)
    (result : Func.OperationState) (name : string) (type : Func.FunctionType)
    (target : Func.ExecutionTarget) :
  Func.regions result = [] ->
  (exists body,
      Func.regions (Func.ValueFuncOp_build builder result name type target) = [body]
      /\ forall attrs external,
           FuncOp.ValueFuncOp_verify (FuncOp.mkValueFuncOp type attrs body external)
           = Returned FuncOp.verified)
  /\ (exists builder' built body,
        Func.ValueFuncOp_build_external builder result name type target
        = Returned (builder', built)
        /\ Func.regions built = [body]
        /\ forall attrs external,
             FuncOp.ValueFuncOp_verify (FuncOp.mkValueFuncOp type attrs body external)
             = Returned FuncOp.verified).
Proof.
  intros Hr. destruct result as [loc attrs0 regs]. simpl in Hr. subst regs.
  split.
  - eexists. split; [reflexivity |]. intros attrs [|]; [done |].
    unfold FuncOp.ValueFuncOp_verify. simpl FuncOp.isExternal. cbv iota.
    simpl FuncOp.getBody. cbv iota. simpl FuncOp.getType.
    rewrite argumentTypes_built. apply verify_loop_same.
  - eexists _, _, _. split; [reflexivity |]. split; [reflexivity |].
    intros attrs [|]; [done |].
    unfold FuncOp.ValueFuncOp_verify. simpl FuncOp.isExternal. cbv iota.
    simpl FuncOp.getBody. cbv iota. simpl FuncOp.getType.
    unfold Func.appendToBlock. simpl Func.arguments.
    rewrite argumentTypes_built. apply verify_loop_same.
Qed.

Lemma built_function_verifies_witness :
  exists body,
    Func.regions
      (Func.ValueFuncOp_build (Func.mkOpBuilder (Func.Outside 0))
         (Func.mkOperationState 7 [] []) "gemm"
         (Func.mkFunctionType [IndexType; FloatType F32] [FloatType F32])
         (Func.ExecutionTarget_value 1))
    = [body]
    /\ FuncOp.ValueFuncOp_verify
         (FuncOp.mkValueFuncOp
            (Func.mkFunctionType [IndexType; FloatType F32] [FloatType F32])
            [] body false)
       = Returned FuncOp.verified.
Proof.
  destruct (built_function_verifies (Func.mkOpBuilder (Func.Outside 0))
              (Func.mkOperationState 7 [] []) "gemm"
              (Func.mkFunctionType [IndexType; FloatType F32] [FloatType F32])
              (Func.ExecutionTarget_value 1) eq_refl)
    as [(body & Hbody & Hverify) _].
  exists body. exact (conj Hbody (Hverify [] false)).
Defined.

(** ** Erasing arguments of a function *)

Lemma without_from_app {T : Type} (indices : list nat) (l1 l2 : list T) :
  forall i : nat,
    without_from indices i (l1 ++ l2)
    = without_from indices i l1 ++ without_from indices (i + length l1) l2.
Proof.
  induction l1 as [| x l1 IH]; intros i; simpl.
  - by rewrite Nat.add_0_r.
  - rewrite IH. replace (S i + length l1)%nat with (i + S (length l1))%nat by lia.
    by case_bool_decide.
Qed.

Lemma without_from_fmap {T U : Type} (f : T -> U) (indices : list nat) (l : list T) :
  forall i : nat,
    f <$> without_from indices i l = without_from indices i (f <$> l).
Proof.
  induction l as [| x l IH]; intros i; csimpl; [done |].
  case_bool_decide; csimpl; by rewrite IH.
Qed.

Lemma without_from_length {T : Type} (indices : list nat) (l : list T) :
  forall i : nat,
    length (without_from indices i l)
    = length (filter (fun j => j ∉ indices) (seq i (length l))).
Proof.
  induction l as [| x l IH]; intros i; simpl; [done |].
  rewrite filter_cons. case_bool_decide as Hin.
  - rewrite decide_False by tauto. apply IH.
  - rewrite decide_True by done. simpl. by rewrite IH.
Qed.

Lemma BitVector_set_all (argIndices : list nat) :
  forall bits : list bool,
    (forall i, i ∈ argIndices -> (i < length bits)%nat) ->
    exists bits',
      FuncOp.set_all bits argIndices = Returned bits'
      /\ length bits' = length bits
      /\ forall i, FuncOp.BitVector_test bits' i
                   = FuncOp.BitVector_test bits i || bool_decide (i ∈ argIndices).
Proof.
  induction argIndices as [| index rest IH]; intros bits Hrange; simpl.
  - exists bits. repeat split. intros i. by rewrite orb_false_r.
  - unfold FuncOp.BitVector_set.
    rewrite bool_decide_eq_true_2 by (apply Hrange; left).
    unfold mbind, outcome_bind.
    destruct (IH (<[index := true]> bits)) as (bits' & Hrun & Hlen & Hbits).
    { intros i Hi. rewrite length_insert. apply Hrange. by right. }
    exists bits'. rewrite length_insert in Hlen. repeat split; try done.
    intros i. rewrite Hbits. unfold FuncOp.BitVector_test.
    destruct (decide (i = index)) as [-> | Hne].
    + rewrite list_lookup_insert_eq by (apply Hrange; left).
      rewrite (bool_decide_eq_true_2 (index ∈ index :: rest)) by left.
      by rewrite orb_true_r.
    + rewrite list_lookup_insert_ne by done. f_equal.
      apply bool_decide_ext. rewrite elem_of_cons. split; [tauto |].
      intros [? | ?]; [congruence | done].
Qed.

Lemma BitVector_set_all_out_of_range (argIndices : list nat) :
  forall bits : list bool,
    (exists i, i ∈ argIndices /\ (length bits <= i)%nat) ->
    FuncOp.set_all bits argIndices = OutOfRange "eraseIndices.set(index)".
Proof.
  induction argIndices as [| index rest IH]; intros bits (i & Hi & Hbig).
  - by apply elem_of_nil in Hi.
  - simpl. unfold FuncOp.BitVector_set. case_bool_decide as Hin; [| done].
    unfold mbind, outcome_bind. apply IH. exists i. rewrite length_insert.
    apply elem_of_cons in Hi as [-> | Hi]; [lia | done].
Qed.

Section Erase.

Variables (op : FuncOp.ValueFuncOp) (argIndices : list nat).
Variable shouldEraseArg : nat -> bool.
Hypothesis shouldEraseArg_spec :
  forall i, shouldEraseArg i = bool_decide (i ∈ argIndices).

Lemma kept_inputs_spec (count : nat) :
  forall first : nat,
    FuncOp.kept_inputs op shouldEraseArg (seq first count)
    = (without_from argIndices first
         ((fun i => Func.getInputs (FuncOp.getType op) !!! i) <$> seq first count),
       without_from argIndices first
         (FuncOp.getArgAttrDict op <$> seq first count)).
Proof.
  induction count as [| count IH]; intros first; [done |].
  simpl. rewrite IH, shouldEraseArg_spec. by case_bool_decide.
Qed.

(** Erasing from the last argument to the first never moves an argument
    that is still to be visited. *)
Lemma erase_entry_arguments_spec (originalNumArgs : nat) (count : nat) :
  forall (first : nat) (entry : Func.Block),
    (first + count)%nat = originalNumArgs ->
    (count <= length (Func.arguments entry))%nat ->
    exists entry',
      FuncOp.erase_entry_arguments shouldEraseArg originalNumArgs
        (seq first count) entry
      = Returned entry'
      /\ Func.arguments entry'
         = without_from argIndices 0 (take count (Func.arguments entry))
           ++ drop count (Func.arguments entry)
      /\ Func.operations entry' = Func.operations entry.
Proof.
  induction count as [| count IH]; intros first entry Hsum Hlen.
  - exists entry. simpl. by rewrite drop_0.
  - simpl. replace (originalNumArgs - first - 1)%nat with count by lia.
    destruct (lookup_lt_is_Some_2 (Func.arguments entry) count) as [x Hx]; [lia |].
    rewrite (take_S_r _ _ _ Hx), without_from_app, length_take_le by lia.
    simpl. rewrite shouldEraseArg_spec.
    case_bool_decide as Hin; unfold mbind, outcome_bind.
    + unfold FuncOp.eraseArgument. rewrite bool_decide_eq_true_2 by lia.
      destruct (IH (S first)
                  (Func.mkBlock (delete count (Func.arguments entry))
                     (Func.operations entry)))
        as (entry' & Hrun & Hargs & Hops); [lia | |].
      { simpl. rewrite length_delete by eauto. lia. }
      exists entry'. split; [done |]. split; [| done].
      rewrite Hargs. simpl. rewrite delete_take_drop.
      rewrite take_app_le, drop_app_ge by (rewrite length_take; lia).
      rewrite take_take, Nat.min_id, length_take_le, Nat.sub_diag, drop_0 by lia.
      by rewrite app_nil_r.
    + destruct (IH (S first) entry) as (entry' & Hrun & Hargs & Hops); [lia | lia |].
      exists entry'. split; [done |]. split; [| done].
      rewrite Hargs, (drop_S _ _ _ Hx), <- app_assoc. done.
Qed.

End Erase.

Lemma replicate_false_test (n i : nat) :
  FuncOp.BitVector_test (replicate n false) i = false.
Proof.
  unfold FuncOp.BitVector_test.
  destruct (replicate n false !! i) as [b |] eqn:Hb; [| done].
  apply lookup_replicate in Hb as [-> _]. done.
Qed.

Lemma lookup_total_seq_fmap {T : Type} `{Inhabited T} (l : list T) :
  (fun i => l !!! i) <$> seq 0 (length l) = l.
Proof.
  apply list_eq. intros i. rewrite list_lookup_fmap.
  destruct (decide (i < length l)%nat) as [Hi | Hi].
  - rewrite lookup_seq_lt by done. simpl.
    symmetry. by apply list_lookup_lookup_total_lt.
  - rewrite lookup_seq_ge by lia. symmetry. apply lookup_ge_None. lia.
Qed.

Lemma eraseArguments_spec (op : FuncOp.ValueFuncOp) (argIndices : list nat)
    (entry : Func.Block) (blocks : list Func.Block) :
  (forall i, i ∈ argIndices ->
             (i < length (Func.getInputs (FuncOp.getType op)))%nat) ->
  FuncOp.getBody op = entry :: blocks ->
  length (Func.arguments entry) = length (Func.getInputs (FuncOp.getType op)) ->
  exists op' entry',
    FuncOp.ValueFuncOp_eraseArguments op argIndices = Returned op'
    /\ Func.getInputs (FuncOp.getType op')
       = without_indices (Func.getInputs (FuncOp.getType op)) argIndices
    /\ Func.getResults (FuncOp.getType op') = Func.getResults (FuncOp.getType op)
    /\ FuncOp.allArgAttrs op'
       = without_indices
           (FuncOp.getArgAttrDict op
              <$> seq 0 (length (Func.getInputs (FuncOp.getType op))))
           argIndices
    /\ FuncOp.getBody op' = entry' :: blocks
    /\ Func.arguments entry' = without_indices (Func.arguments entry) argIndices
    /\ Func.operations entry' = Func.operations entry
    /\ FuncOp.isExternal op' = FuncOp.isExternal op.
Proof.
  intros Hrange Hbody Hargs.
  unfold FuncOp.ValueFuncOp_eraseArguments. cbv zeta.
  destruct (BitVector_set_all argIndices
              (replicate (length (Func.getInputs (FuncOp.getType op))) false))
    as (bits & Hset & _ & Hbits).
  { intros i Hi. rewrite length_replicate. by apply Hrange. }
  rewrite Hset. unfold mbind at 1, outcome_bind at 1.
  assert (Hshould : forall i, FuncOp.BitVector_test bits i
                              = bool_decide (i ∈ argIndices)).
  { intros i. by rewrite Hbits, replicate_false_test. }
  rewrite (kept_inputs_spec op argIndices _ Hshould), Hbody.
  destruct (erase_entry_arguments_spec argIndices _ Hshould
              (length (Func.getInputs (FuncOp.getType op)))
              (length (Func.getInputs (FuncOp.getType op))) 0 entry)
    as (entry' & Hrun & Hentry & Hops); [lia | lia |].
  rewrite Hrun. unfold mbind, outcome_bind.
  eexists _, entry'. split; [reflexivity |]. simpl.
  rewrite lookup_total_seq_fmap.
  repeat split; try done.
  rewrite Hentry, <- Hargs, firstn_all, drop_all, app_nil_r. done.
Qed.

(** X3: [eraseArguments] with indices below the number of inputs, on a
    function whose entry block has one argument for each input, removes
    from the input types, from the argument attributes and from the
    arguments of the entry block exactly the positions listed; the result
    types, the operations of the block, the other blocks and the external
    flag stay as they are. *)
Theorem erase_arguments_result (op : FuncOp.ValueFuncOp) (argIndices : list nat)
    (entry : Func.Block) (blocks : list Func.Block) :
  (forall i, i ∈ argIndices ->
             (i < length (Func.getInputs (FuncOp.getType op)))%nat) ->
  FuncOp.getBody op = entry :: blocks ->
  length (Func.arguments entry) = length (Func.getInputs (FuncOp.getType op)) ->
  exists op' entry',
    FuncOp.ValueFuncOp_eraseArguments op argIndices = Returned op'
    /\ Func.getInputs (FuncOp.getType op')
       = without_indices (Func.getInputs (FuncOp.getType op)) argIndices
    /\ Func.getResults (FuncOp.getType op') = Func.getResults (FuncOp.getType op)
    /\ FuncOp.allArgAttrs op'
       = without_indices
           (FuncOp.getArgAttrDict op
              <$> seq 0 (length (Func.getInputs (FuncOp.getType op))))
           argIndices
    /\ FuncOp.getBody op' = entry' :: blocks
    /\ Func.arguments entry' = without_indices (Func.arguments entry) argIndices
    /\ Func.operations entry' = Func.operations entry
    /\ FuncOp.isExternal op' = FuncOp.isExternal op.
Proof. apply eraseArguments_spec. Qed.

Lemma erase_arguments_result_witness :
  exists op' entry',
    FuncOp.ValueFuncOp_eraseArguments
      (FuncOp.mkValueFuncOp
         (Func.mkFunctionType [IndexType; FloatType F32; FloatType F64] [IndexType])
         [[("a", 1)]; []; [("c", 3)]]
         [Func.mkBlock [(IndexType, 0); (FloatType F32, 0); (FloatType F64, 0)] []]
         false)
      [2%nat; 0%nat; 2%nat]
    = Returned op'
    /\ Func.getInputs (FuncOp.getType op') = [FloatType F32]
    /\ FuncOp.getBody op' = [entry']
    /\ Func.arguments entry' = [(FloatType F32, 0)].
Proof.
  destruct (erase_arguments_result
              (FuncOp.mkValueFuncOp
                 (Func.mkFunctionType [IndexType; FloatType F32; FloatType F64] [IndexType])
                 [[("a", 1)]; []; [("c", 3)]]
                 [Func.mkBlock [(IndexType, 0); (FloatType F32, 0); (FloatType F64, 0)] []]
                 false)
              [2%nat; 0%nat; 2%nat]
              (Func.mkBlock [(IndexType, 0); (FloatType F32, 0); (FloatType F64, 0)] [])
              [])
    as (op' & entry' & Hrun & Hin & _ & _ & Hbody & Hargs & _).
  - intros i Hi. simpl.
    repeat (apply elem_of_cons in Hi as [-> | Hi]; [lia |]).
    by apply elem_of_nil in Hi.
  - reflexivity.
  - reflexivity.
  - exists op', entry'. exact (conj Hrun (conj Hin (conj Hbody Hargs))).
Defined.

(** X4: [eraseArguments] keeps the signature and the entry block in
    step: when the entry block has one argument of the type of each input
    before, it has so after, and the function still verifies. *)
Theorem erase_arguments_keeps_signature (op : FuncOp.ValueFuncOp)
    (argIndices : list nat) :
  signature_matches_entry op ->
  (forall i, i ∈ argIndices ->
             (i < length (Func.getInputs (FuncOp.getType op)))%nat) ->
  exists op',
    FuncOp.ValueFuncOp_eraseArguments op argIndices = Returned op'
    /\ signature_matches_entry op'
    /\ FuncOp.ValueFuncOp_verify op' = Returned FuncOp.verified.
Proof.
  intros (entry & blocks & Hbody & Hmatch) Hrange.
  destruct (eraseArguments_spec op argIndices entry blocks Hrange Hbody)
    as (op' & entry' & Hrun & Hin & _ & _ & Hbody' & Hargs' & _).
  { rewrite <- Hmatch. unfold FuncOp.argumentTypes. by rewrite length_fmap. }
  assert (Hmatch' : FuncOp.argumentTypes entry' = Func.getInputs (FuncOp.getType op')).
  { unfold FuncOp.argumentTypes, without_indices in *.
    rewrite Hargs', Hin, without_from_fmap. by rewrite Hmatch. }
  exists op'. split; [done |]. split; [by exists entry', blocks |].
  unfold FuncOp.ValueFuncOp_verify. destruct (FuncOp.isExternal op'); [done |].
  rewrite Hbody', Hmatch'. apply verify_loop_same.
Qed.

Lemma erase_arguments_keeps_signature_witness :
  exists op',
    FuncOp.ValueFuncOp_eraseArguments
      (FuncOp.mkValueFuncOp
         (Func.mkFunctionType [IndexType; FloatType F32] [])
         []
         [Func.mkBlock [(IndexType, 0); (FloatType F32, 0)] [Func.ReturnOp 0]]
         false)
      [0%nat]
    = Returned op'
    /\ FuncOp.ValueFuncOp_verify op' = Returned FuncOp.verified.
Proof.
  destruct (erase_arguments_keeps_signature
              (FuncOp.mkValueFuncOp
                 (Func.mkFunctionType [IndexType; FloatType F32] [])
                 []
                 [Func.mkBlock [(IndexType, 0); (FloatType F32, 0)] [Func.ReturnOp 0]]
                 false)
              [0%nat])
    as (op' & Hrun & _ & Hverify).
  - eexists _, _. split; reflexivity.
  - intros i Hi. simpl.
    repeat (apply elem_of_cons in Hi as [-> | Hi]; [lia |]).
    by apply elem_of_nil in Hi.
  - exists op'. exact (conj Hrun Hverify).
Defined.

Lemma without_indices_count {T : Type} (l : list T) (indices : list nat) :
  (forall i, i ∈ indices -> (i < length l)%nat) ->
  (length (without_indices l indices) + length (remove_dups indices))%nat = length l.
Proof.
  intros Hrange. unfold without_indices. rewrite without_from_length.
  assert (Hdups : remove_dups indices
                  ≡ₚ filter (fun j => j ∈ indices) (seq 0 (length l))).
  { apply NoDup_Permutation.
    - apply NoDup_remove_dups.
    - apply list.NoDup_filter, NoDup_seq.
    - intros i. rewrite elem_of_remove_dups, list_elem_of_filter, elem_of_seq.
      split; [| tauto]. intros Hi. split; [done |]. specialize (Hrange i Hi). lia. }
  rewrite (Permutation_length Hdups), Nat.add_comm, <- length_app.
  rewrite (Permutation_length (filter_app_complement _ _)). apply length_seq.
Qed.

(** X5: [eraseArguments] with indices in range takes away one input for
    each index that occurs in the list, however often it occurs. *)
Theorem erase_arguments_count (op : FuncOp.ValueFuncOp) (argIndices : list nat)
    (entry : Func.Block) (blocks : list Func.Block) :
  (forall i, i ∈ argIndices ->
             (i < length (Func.getInputs (FuncOp.getType op)))%nat) ->
  FuncOp.getBody op = entry :: blocks ->
  length (Func.arguments entry) = length (Func.getInputs (FuncOp.getType op)) ->
  exists op' entry',
    FuncOp.ValueFuncOp_eraseArguments op argIndices = Returned op'
    /\ FuncOp.getBody op' = entry' :: blocks
    /\ (length (Func.getInputs (FuncOp.getType op'))
        + length (remove_dups argIndices))%nat
       = length (Func.getInputs (FuncOp.getType op))
    /\ (length (Func.arguments entry') + length (remove_dups argIndices))%nat
       = length (Func.arguments entry).
Proof.
  intros Hrange Hbody Hargs.
  destruct (eraseArguments_spec op argIndices entry blocks Hrange Hbody Hargs)
    as (op' & entry' & Hrun & Hin & _ & _ & Hbody' & Hargs' & _).
  exists op', entry'. rewrite Hin, Hargs'.
  repeat split; try done; apply without_indices_count; [done |].
  by rewrite Hargs.
Qed.

Lemma erase_arguments_count_witness :
  exists op' entry',
    FuncOp.ValueFuncOp_eraseArguments
      (FuncOp.mkValueFuncOp
         (Func.mkFunctionType [IndexType; FloatType F32; FloatType F64] [])
         []
         [Func.mkBlock [(IndexType, 0); (FloatType F32, 0); (FloatType F64, 0)] []]
         false)
      [1%nat; 1%nat]
    = Returned op'
    /\ FuncOp.getBody op' = [entry']
    /\ length (Func.getInputs (FuncOp.getType op')) = 2%nat.
Proof.
  destruct (erase_arguments_count
              (FuncOp.mkValueFuncOp
                 (Func.mkFunctionType [IndexType; FloatType F32; FloatType F64] [])
                 []
                 [Func.mkBlock [(IndexType, 0); (FloatType F32, 0); (FloatType F64, 0)] []]
                 false)
              [1%nat; 1%nat]
              (Func.mkBlock [(IndexType, 0); (FloatType F32, 0); (FloatType F64, 0)] [])
              [])
    as (op' & entry' & Hrun & Hbody & Hcount & _).
  - intros i Hi. simpl.
    repeat (apply elem_of_cons in Hi as [-> | Hi]; [lia |]).
    by apply elem_of_nil in Hi.
  - reflexivity.
  - reflexivity.
  - exists op', entry'. split; [done |]. split; [done |].
    simpl in Hcount. lia.
Defined.

Lemma BitVector_ext (bits1 bits2 : list bool) :
  length bits1 = length bits2 ->
  (forall i, FuncOp.BitVector_test bits1 i = FuncOp.BitVector_test bits2 i) ->
  bits1 = bits2.
Proof.
  intros Hlen Htest. apply list_eq. intros i.
  specialize (Htest i). unfold FuncOp.BitVector_test in Htest.
  destruct (bits1 !! i) as [b1 |] eqn:H1, (bits2 !! i) as [b2 |] eqn:H2;
    simpl in Htest; try congruence.
  - apply lookup_lt_Some in H1. apply lookup_ge_None in H2. lia.
  - apply lookup_ge_None in H1. apply lookup_lt_Some in H2. lia.
Qed.

Lemma set_all_same_indices (size : nat) (indices1 indices2 : list nat) :
  (forall i, i ∈ indices1 <-> i ∈ indices2) ->
  FuncOp.set_all (replicate size false) indices1
  = FuncOp.set_all (replicate size false) indices2.
Proof.
  intros Hsame.
  destruct (decide (Forall (fun i => (i < size)%nat) indices1)) as [Hin | Hout].
  - rewrite list.Forall_forall in Hin.
    destruct (BitVector_set_all indices1 (replicate size false))
      as (bits1 & -> & Hlen1 & Htest1).
    { intros i Hi. rewrite length_replicate. by apply Hin. }
    destruct (BitVector_set_all indices2 (replicate size false))
      as (bits2 & -> & Hlen2 & Htest2).
    { intros i Hi. rewrite length_replicate. by apply Hin, Hsame. }
    f_equal. apply BitVector_ext; [congruence |].
    intros i. rewrite Htest1, Htest2. f_equal. by apply bool_decide_ext.
  - apply not_Forall_Exists in Hout; [| apply _].
    apply list.Exists_exists in Hout as (i & Hi & Hbig). simpl in Hbig.
    rewrite !BitVector_set_all_out_of_range; [done | |];
      exists i; rewrite length_replicate; split; try lia; [by apply Hsame | done].
Qed.

(** X6: [eraseArguments] looks at the indices as a set: two lists with the
    same members, in any order and with any repetitions, give the same
    outcome. *)
Theorem erase_arguments_set (op : FuncOp.ValueFuncOp)
    (indices1 indices2 : list nat) :
  (forall i, i ∈ indices1 <-> i ∈ indices2) ->
  FuncOp.ValueFuncOp_eraseArguments op indices1
  = FuncOp.ValueFuncOp_eraseArguments op indices2.
Proof.
  intros Hsame. unfold FuncOp.ValueFuncOp_eraseArguments. cbv zeta.
  by rewrite (set_all_same_indices _ _ _ Hsame).
Qed.

Lemma erase_arguments_set_witness :
  FuncOp.ValueFuncOp_eraseArguments
    (FuncOp.mkValueFuncOp
       (Func.mkFunctionType [IndexType; FloatType F32; FloatType F64] [])
       []
       [Func.mkBlock [(IndexType, 0); (FloatType F32, 0); (FloatType F64, 0)] []]
       false)
    [0%nat; 2%nat]
  = FuncOp.ValueFuncOp_eraseArguments
      (FuncOp.mkValueFuncOp
         (Func.mkFunctionType [IndexType; FloatType F32; FloatType F64] [])
         []
         [Func.mkBlock [(IndexType, 0); (FloatType F32, 0); (FloatType F64, 0)] []]
         false)
      [2%nat; 0%nat; 2%nat].
Proof.
  apply erase_arguments_set. intros i. rewrite !elem_of_cons, elem_of_nil. tauto.
Defined.

(** X7: an index that is not below the number of inputs stops
    [eraseArguments] at the bit vector, before anything is changed: no
    function is returned. *)
Theorem erase_arguments_out_of_range (op : FuncOp.ValueFuncOp)
    (argIndices : list nat) (index : nat) :
  index ∈ argIndices ->
  (length (Func.getInputs (FuncOp.getType op)) <= index)%nat ->
  FuncOp.ValueFuncOp_eraseArguments op argIndices
  = OutOfRange "eraseIndices.set(index)".
Proof.
  intros Hin Hbig. unfold FuncOp.ValueFuncOp_eraseArguments. cbv zeta.
  rewrite BitVector_set_all_out_of_range; [done |].
  exists index. by rewrite length_replicate.
Qed.

Lemma erase_arguments_out_of_range_witness :
  FuncOp.ValueFuncOp_eraseArguments
    (FuncOp.mkValueFuncOp
       (Func.mkFunctionType [IndexType; FloatType F32] [])
       []
       [Func.mkBlock [(IndexType, 0); (FloatType F32, 0)] []]
       false)
    [0%nat; 2%nat]
  = OutOfRange "eraseIndices.set(index)".
Proof.
  apply (erase_arguments_out_of_range _ _ 2%nat).
  - right. left.
  - simpl. lia.
Defined.

(** ** Elements per thread *)

Lemma descriptor_sizes (s : MMA.MMAShape) (op : MMA.MMAOp) :
  MMA.MMAOp_new s = Returned op ->
  (exists c, 0 < c /\ MMA.m op * MMA.k op = c * 64)
  /\ (exists c, 0 < c /\ MMA.m op * MMA.n op = c * 64).
Proof.
  intros Hop.
  destruct s; simpl in Hop; try discriminate Hop; injection Hop as <-; simpl;
    split;
    first [ by exists 1 | by exists 2 | by exists 4 | by exists 8
          | by exists 16 | by exists 64 ].
Qed.

(** X8: for every constructed descriptor and every warp size that divides
    64, the divisions in [getInElementsPerThread] and
    [getOutElementsPerThread] leave no remainder: the threads of a warp
    share the m x k elements of an input tile and the m x n elements of the
    output tile evenly, and each gets at least one. *)
Theorem elements_per_thread_exact (s : MMA.MMAShape) (op : MMA.MMAOp) (warpSize : Z) :
  MMA.MMAOp_new s = Returned op ->
  0 < warpSize ->
  (warpSize | 64) ->
  MMAOp.getInElementsPerThread op warpSize * warpSize = MMA.m op * MMA.k op
  /\ MMAOp.getOutElementsPerThread op warpSize * warpSize = MMA.m op * MMA.n op
  /\ 1 <= MMAOp.getInElementsPerThread op warpSize
  /\ 1 <= MMAOp.getOutElementsPerThread op warpSize.
Proof.
  intros Hop Hpos [q Hq].
  destruct (descriptor_sizes s op Hop) as [(c1 & Hc1 & H1) (c2 & Hc2 & H2)].
  unfold MMAOp.getInElementsPerThread, MMAOp.getOutElementsPerThread, MMA.getM, MMA.getN.
  rewrite H1, H2, Hq, !Z.mul_assoc, !Z.quot_mul by lia.
  assert (0 < q) by nia.
  repeat split; nia.
Qed.

Lemma elements_per_thread_exact_witness :
  MMAOp.getInElementsPerThread (MMA.mkMMAOp MMA.M32xN8xK16_B1 32 8 16 1) 64 * 64
  = 32 * 16
  /\ MMAOp.getOutElementsPerThread (MMA.mkMMAOp MMA.M32xN8xK16_B1 32 8 16 1) 64 * 64
     = 32 * 8.
Proof.
  destruct (elements_per_thread_exact MMA.M32xN8xK16_B1 _ 64 eq_refl) as (Hin & Hout & _).
  - lia.
  - by exists 1.
  - exact (conj Hin Hout).
Defined.

(** X9: for every constructed descriptor and warp size dividing 64, the
    input count per thread times the warp size is the number of elements of
    operand A; it is the number of elements of operand B exactly when the
    shape has m = n, that is for every shape but [M32xN8xK16_B1] and
    [M8xN32xK16_B1]; the output count times the warp size is the number of
    elements of the accumulator. *)
Theorem elements_per_thread_operands (s : MMA.MMAShape) (op : MMA.MMAOp) (warpSize : Z) :
  MMA.MMAOp_new s = Returned op ->
  0 < warpSize ->
  (warpSize | 64) ->
  num_elements (MMA.getOperandShape op MMA.A)
  = MMAOp.getInElementsPerThread op warpSize * warpSize
  /\ num_elements (MMA.getOperandShape op MMA.Acc)
     = MMAOp.getOutElementsPerThread op warpSize * warpSize
  /\ (num_elements (MMA.getOperandShape op MMA.B)
      = MMAOp.getInElementsPerThread op warpSize * warpSize
      <-> s ∉ [MMA.M32xN8xK16_B1; MMA.M8xN32xK16_B1]).
Proof.
  intros Hop Hpos [q Hq].
  destruct (descriptor_sizes s op Hop) as [(c1 & Hc1 & H1) (c2 & Hc2 & H2)].
  unfold MMAOp.getInElementsPerThread, MMAOp.getOutElementsPerThread, MMA.getM, MMA.getN.
  rewrite H1, H2, Hq, !Z.mul_assoc, !Z.quot_mul by lia.
  rewrite <- !Z.mul_assoc, <- Hq, <- H1, <- H2.
  unfold num_elements, MMA.getOperandShape, MMA.getM, MMA.getN, MMA.getK. simpl.
  split; [lia |]. split; [lia |].
  clear H1 H2.
  destruct s; simpl in Hop; try discriminate Hop; injection Hop as <-; simpl;
    (split; [intros Heq; try discriminate Heq | intros Hnot; try reflexivity]).
  all: try (intros Hin; not_listed Hin).
  all: exfalso; apply Hnot; first [by left | by right; left].
Qed.

Lemma elements_per_thread_operands_witness :
  num_elements (MMA.getOperandShape (MMA.mkMMAOp MMA.M16xN16xK4_B1 16 16 4 1) MMA.B)
  = MMAOp.getInElementsPerThread (MMA.mkMMAOp MMA.M16xN16xK4_B1 16 16 4 1) 32 * 32.
Proof.
  destruct (elements_per_thread_operands MMA.M16xN16xK4_B1 _ 32 eq_refl)
    as (_ & _ & HB).
  - lia.
  - by exists 2.
  - apply HB. intros Hin. not_listed Hin.
Defined.

(** ** More on reorders *)

Lemma gather_identity (v : list Z) : gather v (seqZ 0 (Z.of_nat (length v))) = v.
Proof.
  apply list_eq. intros j. unfold gather. rewrite list_lookup_fmap.
  destruct (decide (j < length v)%nat) as [Hj | Hj].
  - rewrite lookup_seqZ_lt by lia. simpl. rewrite Z.add_0_l, Nat2Z.id.
    symmetry. by apply list_lookup_lookup_total_lt.
  - rewrite lookup_seqZ_ge by lia. symmetry. apply lookup_ge_None. lia.
Qed.

Lemma gather_Permutation (v order : list Z) :
  is_permutation_of_range order (length v) = true -> gather v order ≡ₚ v.
Proof.
  intros Hperm%is_permutation_of_range_Permutation.
  rewrite <- (gather_identity v) at 2. unfold gather. by rewrite Hperm.
Qed.

Lemma gather_zip_with_mul (a b order : list Z) :
  length a = length b ->
  (forall p, p ∈ order -> 0 <= p < Z.of_nat (length a)) ->
  zip_with Z.mul (gather a order) (gather b order)
  = gather (zip_with Z.mul a b) order.
Proof.
  intros Hlen Hrange. induction order as [| p order IH]; [done |].
  unfold gather in *. csimpl. rewrite IH by (intros q Hq; apply Hrange; by right).
  f_equal.
  destruct (Hrange p) as [Hp0 Hp1]; [left |].
  destruct (lookup_lt_is_Some_2 a (Z.to_nat p)) as [x Hx]; [lia |].
  destruct (lookup_lt_is_Some_2 b (Z.to_nat p)) as [y Hy]; [lia |].
  rewrite (list_lookup_total_correct _ _ _ Hx), (list_lookup_total_correct _ _ _ Hy).
  symmetry. apply list_lookup_total_correct.
  rewrite lookup_zip_with, Hx, Hy. done.
Qed.

Lemma sum_Permutation (l1 l2 : list Z) :
  l1 ≡ₚ l2 -> foldr Z.add 0 l1 = foldr Z.add 0 l2.
Proof. induction 1; simpl; lia. Qed.

Lemma product_Permutation (l1 l2 : list Z) :
  l1 ≡ₚ l2 -> num_elements l1 = num_elements l2.
Proof. unfold num_elements. induction 1; simpl; lia. Qed.

(** X10: a reorder moves no element. The element that the source keeps
    at an index is the one that the result keeps at the index with its
    components gathered in the order of the reorder: both have the same
    linear address. *)
Theorem reorder_preserves_addresses (sourceType resultType : MemRefType)
    (order strides index : list Z) (offset : Z) :
  getStridesAndOffset sourceType = Some (strides, offset) ->
  is_permutation_of_range order (getRank sourceType) = true ->
  Reorder.ReorderOp_build sourceType order = Returned resultType ->
  length index = getRank sourceType ->
  exists strides',
    getStridesAndOffset resultType = Some (strides', offset)
    /\ linear_address strides' offset (gather index order)
       = linear_address strides offset index.
Proof.
  intros Hstr Hperm Hbuild Hindex.
  pose proof (strides_length _ _ _ Hstr) as Hlstr.
  destruct (ReorderOp_build_result _ _ _ _ Hstr Hperm) as (t & Ht & _ & Hstr' & _).
  rewrite Hbuild in Ht. injection Ht as <-.
  exists (gather strides order). split; [done |].
  unfold linear_address. f_equal.
  pose proof (is_permutation_of_range_spec _ _ Hperm) as (_ & _ & Hin).
  rewrite gather_zip_with_mul.
  - apply sum_Permutation, gather_Permutation.
    rewrite length_zip_with. by rewrite Hlstr, Hindex, Nat.min_id.
  - lia.
  - intros p Hp. rewrite Hlstr. by apply Hin.
Qed.

Lemma reorder_preserves_addresses_witness :
  exists strides',
    getStridesAndOffset
      (mkMemRefType [4; 2; 3] (FloatType F32)
         (Affine.makeStridedLinearLayoutMap [1; 12; 4] 0) MemorySpace.Global)
    = Some (strides', 0)
    /\ linear_address strides' 0 (gather [1; 2; 3] [2; 0; 1])
       = linear_address [12; 4; 1] 0 [1; 2; 3].
Proof.
  apply (reorder_preserves_addresses
           (mkMemRefType [2; 3; 4] (FloatType F32)
              (Affine.makeStridedLinearLayoutMap [12; 4; 1] 0) MemorySpace.Global)
           _ [2; 0; 1] [12; 4; 1] [1; 2; 3] 0); reflexivity.
Defined.

(** X11: a reorder by a permutation order gives a shape that is a
    permutation of the shape of the source: the buffer keeps its rank and
    its number of elements. *)
Theorem reorder_permutes_shape (sourceType resultType : MemRefType)
    (order strides : list Z) (offset : Z) :
  getStridesAndOffset sourceType = Some (strides, offset) ->
  is_permutation_of_range order (getRank sourceType) = true ->
  Reorder.ReorderOp_build sourceType order = Returned resultType ->
  getShape resultType ≡ₚ getShape sourceType
  /\ getRank resultType = getRank sourceType
  /\ num_elements (getShape resultType) = num_elements (getShape sourceType).
Proof.
  intros Hstr Hperm Hbuild.
  destruct (ReorderOp_build_result _ _ _ _ Hstr Hperm) as (t & Ht & Hshape & _).
  rewrite Hbuild in Ht. injection Ht as <-.
  assert (Hp : getShape resultType ≡ₚ getShape sourceType).
  { rewrite Hshape. by apply gather_Permutation. }
  split; [done |]. split.
  - unfold getRank. apply (Permutation_length Hp).
  - by apply product_Permutation.
Qed.

Lemma reorder_permutes_shape_witness :
  num_elements
    (getShape (mkMemRefType [4; 2; 3] (FloatType F32)
                 (Affine.makeStridedLinearLayoutMap [1; 12; 4] 0) MemorySpace.Global))
  = num_elements [2; 3; 4].
Proof.
  apply (reorder_permutes_shape
           (mkMemRefType [2; 3; 4] (FloatType F32)
              (Affine.makeStridedLinearLayoutMap [12; 4; 1] 0) MemorySpace.Global)
           _ [2; 0; 1] [12; 4; 1] 0); reflexivity.
Defined.

(** X12: a reorder by the identity order 0, 1, .., rank - 1 changes
    neither the shape nor the strides nor the offset. *)
Theorem reorder_identity (sourceType : MemRefType) (strides : list Z) (offset : Z) :
  getStridesAndOffset sourceType = Some (strides, offset) ->
  exists resultType,
    Reorder.ReorderOp_build sourceType (seqZ 0 (Z.of_nat (getRank sourceType)))
    = Returned resultType
    /\ getShape resultType = getShape sourceType
    /\ getStridesAndOffset resultType = Some (strides, offset).
Proof.
  intros Hstr.
  pose proof (strides_length _ _ _ Hstr) as Hlstr.
  assert (Hperm : is_permutation_of_range
                    (seqZ 0 (Z.of_nat (getRank sourceType))) (getRank sourceType)
                  = true).
  { unfold is_permutation_of_range. apply andb_true_iff. split.
    - apply bool_decide_eq_true. rewrite length_seqZ. lia.
    - apply forallb_forall. intros x Hx%list_elem_of_In.
      by apply bool_decide_eq_true. }
  destruct (ReorderOp_build_result _ _ _ _ Hstr Hperm)
    as (t & Ht & Hshape & Hstr' & _).
  exists t. split; [done |].
  unfold getRank, getShape in *.
  rewrite gather_identity in Hshape.
  rewrite <- Hlstr, gather_identity in Hstr'. done.
Qed.

Lemma reorder_identity_witness :
  exists resultType,
    Reorder.ReorderOp_build
      (mkMemRefType [2; 3] (FloatType F32)
         (Affine.makeStridedLinearLayoutMap [3; 1] 5) MemorySpace.Shared)
      [0; 1]
    = Returned resultType
    /\ getShape resultType = [2; 3]
    /\ getStridesAndOffset resultType = Some ([3; 1], 5).
Proof.
  apply (reorder_identity
           (mkMemRefType [2; 3] (FloatType F32)
              (Affine.makeStridedLinearLayoutMap [3; 1] 5) MemorySpace.Shared)
           [3; 1] 5 eq_refl).
Defined.

Lemma build_loop_out_of_range (originalSizes : list Z) (dimOrder : list Z) :
  forall (index : nat) (permutedSizes : list Z) (affineMapOrder : list nat),
    (exists v, v ∈ dimOrder /\ ~ (0 <= v < Z.of_nat (length originalSizes))) ->
    exists what,
      Reorder.build_loop originalSizes dimOrder index permutedSizes affineMapOrder
      = OutOfRange what.
Proof.
  induction dimOrder as [| value rest IH]; intros index ps amo (v & Hv & Hbad).
  - by apply elem_of_nil in Hv.
  - simpl. unfold Reorder.at_.
    case_bool_decide as Hneg; [| eauto].
    destruct (originalSizes !! Z.to_nat value) as [size |] eqn:Hsize; [| eauto].
    case_bool_decide; [| eauto].
    apply IH. exists v. split; [| done].
    apply elem_of_cons in Hv as [-> | Hv]; [| done].
    exfalso. apply Hbad. apply lookup_lt_Some in Hsize.
    split; [done |]. apply Z2Nat.inj_lt; [done | lia |]. by rewrite Nat2Z.id.
Qed.

(** X13: an order with an entry that is negative or not below the rank
    of the source ends [ReorderOp::build] in an access outside of a
    container: no result type is built. *)
Theorem reorder_entry_out_of_range (sourceType : MemRefType) (order : list Z) (v : Z) :
  v ∈ order ->
  ~ (0 <= v < Z.of_nat (getRank sourceType)) ->
  exists what, Reorder.ReorderOp_build sourceType order = OutOfRange what.
Proof.
  intros Hv Hbad. unfold Reorder.ReorderOp_build. cbv zeta.
  destruct (build_loop_out_of_range (getShape sourceType) order 0
              (replicate (length order) 0) (replicate (length order) 0%nat))
    as [what Hrun]; [by exists v |].
  rewrite Hrun. by exists what.
Qed.

Lemma reorder_entry_out_of_range_witness :
  exists what,
    Reorder.ReorderOp_build
      (mkMemRefType [2; 3] (FloatType F32)
         (Affine.makeStridedLinearLayoutMap [3; 1] 0) MemorySpace.Global)
      [1; 2]
    = OutOfRange what.
Proof.
  apply (reorder_entry_out_of_range
           (mkMemRefType [2; 3] (FloatType F32)
              (Affine.makeStridedLinearLayoutMap [3; 1] 0) MemorySpace.Global)
           [1; 2] 2).
  - right. left.
  - intros [_ H]. vm_compute in H. discriminate H.
Defined.

(** X14: [ReorderOp::build] returns a type only for a source whose strides
    and offset are computable; for any other source it returns nothing,
    whatever the order. When it does return a type, that type has the
    element type and the memory space of the source and as many dimensions
    as the order has entries. *)
Theorem reorder_needs_strides (sourceType : MemRefType) (order : list Z) :
  (getStridesAndOffset sourceType = None ->
     forall resultType,
       Reorder.ReorderOp_build sourceType order <> Returned resultType)
  /\ (forall resultType,
        Reorder.ReorderOp_build sourceType order = Returned resultType ->
        getElementType resultType = getElementType sourceType
        /\ memorySpace resultType = memorySpace sourceType
        /\ getRank resultType = length order).
Proof.
  unfold Reorder.ReorderOp_build. cbv zeta.
  destruct (Reorder.build_loop _ _ _ _ _) as [[sizes amo] | |] eqn:Hrun;
    [| split; [intros _ ? [=] | intros ? [=]] ..].
  unfold mbind, outcome_bind.
  destruct (Affine.getPermutationMap amo) as [pm |];
    [| split; [intros _ ? [=] | intros ? [=]]].
  destruct (getStridesAndOffset sourceType) as [[strides offset] |];
    [| split; [intros _ ? [=] | intros ? [=]]].
  split; [done |]. intros resultType [= <-]. simpl.
  split; [done |]. split; [done |].
  unfold getRank. simpl.
  assert (Hlen : forall dimOrder index ps (amo0 : list nat) sizes' amo',
             Reorder.build_loop (getShape sourceType) dimOrder index ps amo0
             = Returned (sizes', amo') -> length sizes' = length ps).
  { clear. induction dimOrder as [| value rest IH];
      intros index ps amo0 sizes' amo' Hrun; simpl in Hrun.
    - by injection Hrun as <- <-.
    - destruct (Reorder.at_ _ _); [| done]. case_bool_decide; [| done].
      apply IH in Hrun. by rewrite length_insert in Hrun. }
  apply Hlen in Hrun. by rewrite length_replicate in Hrun.
Qed.

Lemma reorder_needs_strides_witness :
  ~ (exists resultType,
        Reorder.ReorderOp_build
          (mkMemRefType [2; 3] (FloatType F32) (Affine.mkAffineMap 2 []) MemorySpace.Global)
          [1; 0]
        = Returned resultType).
Proof.
  intros [resultType Hbuild].
  exact (proj1 (reorder_needs_strides
                  (mkMemRefType [2; 3] (FloatType F32) (Affine.mkAffineMap 2 [])
                     MemorySpace.Global)
                  [1; 0])
           eq_refl resultType Hbuild).
Defined.

(** X15: the order is not checked to be a permutation. On a buffer of rank
    2 with computable strides every order of two entries out of 0 and 1
    builds a type, also 0, 0 and 1, 1; the order 0, 0 gives a shape that
    has the first size twice, with the two strides of the source swapped. *)
Theorem reorder_rank2_unchecked (sourceType : MemRefType) (strides : list Z)
    (offset : Z) (a b : Z) :
  getRank sourceType = 2%nat ->
  getStridesAndOffset sourceType = Some (strides, offset) ->
  a ∈ [0; 1] -> b ∈ [0; 1] ->
  exists resultType,
    Reorder.ReorderOp_build sourceType [a; b] = Returned resultType
    /\ (a = 0 -> b = 0 ->
        getShape resultType
        = [getShape sourceType !!! 0%nat; getShape sourceType !!! 0%nat]
        /\ getStridesAndOffset resultType
           = Some ([strides !!! 1%nat; strides !!! 0%nat], offset)).
Proof.
  intros Hrank Hstr Ha Hb.
  pose proof (strides_length _ _ _ Hstr) as Hlstr. rewrite Hrank in Hlstr.
  destruct strides as [| r0 [| r1 [| ? ?]]]; try discriminate Hlstr.
  destruct sourceType as [shape el lay ms]. unfold getRank in Hrank. simpl in Hrank.
  destruct shape as [| s0 [| s1 [| ? ?]]]; try discriminate Hrank.
  unfold Reorder.ReorderOp_build. cbv zeta. rewrite Hstr.
  apply elem_of_cons in Ha as [-> | Ha]; [| apply elem_of_cons in Ha as [-> | Ha];
                                            [| by apply elem_of_nil in Ha]];
    (apply elem_of_cons in Hb as [-> | Hb]; [| apply elem_of_cons in Hb as [-> | Hb];
                                               [| by apply elem_of_nil in Hb]]);
    (eexists; split; [reflexivity |]); intros Ha0 Hb0; try discriminate.
  split; [reflexivity |].
  unfold getStridesAndOffset. simpl. do 2 f_equal; [| lia].
  repeat (f_equal; try lia).
Qed.

Lemma reorder_rank2_unchecked_witness :
  exists resultType,
    Reorder.ReorderOp_build
      (mkMemRefType [2; 3] (FloatType F32)
         (Affine.makeStridedLinearLayoutMap [3; 1] 0) MemorySpace.Global)
      [0; 0]
    = Returned resultType
    /\ getShape resultType = [2; 2]
    /\ getStridesAndOffset resultType = Some ([1; 3], 0).
Proof.
  destruct (reorder_rank2_unchecked
              (mkMemRefType [2; 3] (FloatType F32)
                 (Affine.makeStridedLinearLayoutMap [3; 1] 0) MemorySpace.Global)
              [3; 1] 0 0 0 eq_refl eq_refl)
    as (t & Ht & Hdetails).
  - left.
  - left.
  - exists t. split; [done |]. by apply Hdetails.
Defined.

Lemma reorder_chain_witness :
  exists first second direct,
    Reorder.ReorderOp_build
      (mkMemRefType [2; 3; 4] (FloatType F32)
         (Affine.makeStridedLinearLayoutMap [12; 4; 1] 0) MemorySpace.Global)
      [2; 0; 1]
    = Returned first
    /\ Reorder.ReorderOp_build first [0; 2; 1] = Returned second
    /\ Reorder.ReorderOp_build
         (mkMemRefType [2; 3; 4] (FloatType F32)
            (Affine.makeStridedLinearLayoutMap [12; 4; 1] 0) MemorySpace.Global)
         [2; 1; 0]
       = Returned direct
    /\ Reorder.same_structure second direct.
Proof.
  apply (reorder_chain
           (mkMemRefType [2; 3; 4] (FloatType F32)
              (Affine.makeStridedLinearLayoutMap [12; 4; 1] 0) MemorySpace.Global)
           [2; 0; 1] [0; 2; 1] [12; 4; 1] 0); reflexivity.
Defined.

Lemma descriptor_ranges_witness :
  MMA.m (MMA.mkMMAOp MMA.M8xN32xK16_B1 8 32 16 1) ∈ [8; 16; 32; 64]
  /\ MMA.k (MMA.mkMMAOp MMA.M8xN32xK16_B1 8 32 16 1) ∈ [1; 2; 4; 8; 16].
Proof.
  destruct (descriptor_ranges MMA.M8xN32xK16_B1 _ eq_refl) as (Hm & _ & Hk & _).
  exact (conj Hm Hk).
Defined.

(** ** More on folding casts *)

Lemma signed_wrap_range (w v : Z) :
  1 <= w -> - 2 ^ (w - 1) <= Fold.signed_wrap w v < 2 ^ (w - 1).
Proof.
  intros Hw. unfold Fold.signed_wrap.
  assert (Hpow : 2 ^ w = 2 * 2 ^ (w - 1)).
  { rewrite <- Z.pow_succ_r by lia. f_equal. lia. }
  assert (0 < 2 ^ (w - 1)) by (apply Z.pow_pos_nonneg; lia).
  pose proof (Z.mod_pos_bound (v + 2 ^ (w - 1)) (2 ^ w)). lia.
Qed.

(** A fold that gives a constant has read its operand through [getInt]:
    the operand is an integer constant of signless integer or index type
    whose value is a 64-bit one. *)
Lemma CastOp_fold_constant_operand (op : Fold.CastOp)
    (operands : list Fold.Attribute) (a : Fold.Attribute) :
  Fold.CastOp_fold op operands = Returned (Fold.FoldedAttr a) ->
  exists ty v,
    operands !! 0%nat = Some (Fold.IntegerAttr ty v)
    /\ isSignlessIntOrIndex ty = true
    /\ - 2 ^ 63 <= v < 2 ^ 63.
Proof.
  unfold Fold.CastOp_fold.
  destruct (operands !! 0%nat) as [[| ty v | |] |]; try done.
  cbv zeta. intros Hfold. exists ty, v. split; [done |].
  assert (Hread : exists i, Fold.getInt (Fold.IntegerAttr ty v) = Returned i).
  { destruct (isSignlessIntOrIndex (Fold.castType_ op)).
    - destruct (Fold.getInt _); [eauto | done | done].
    - destruct (isSignlessIntOrIndexOrFloat (Fold.castType_ op)); [| done].
      destruct (Fold.getInt _); [eauto | done | done]. }
  destruct Hread as (i & Hi). unfold Fold.getInt in Hi.
  destruct (isSignlessIntOrIndex ty); [| done].
  destruct (bool_decide_reflect (- 2 ^ 63 <= v < 2 ^ 63)); done.
Qed.

(** X18: whatever constant [CastOp::fold] folds to has the type of the
    cast, and is an integer constant exactly when that type is a signless
    integer or index type; the operand was then an integer constant of
    signless integer or index type with a 64-bit value, and the result
    depends on that value only, not on which signless integer or index
    type the operand constant has. *)
Theorem cast_fold_result_type (op : Fold.CastOp) (operands : list Fold.Attribute)
    (a : Fold.Attribute) :
  Fold.CastOp_fold op operands = Returned (Fold.FoldedAttr a) ->
  attributeType a = Some (Fold.castType_ op)
  /\ (Fold.isIntegerAttr a = isSignlessIntOrIndex (Fold.castType_ op))
  /\ (exists ty v,
        operands !! 0%nat = Some (Fold.IntegerAttr ty v)
        /\ isSignlessIntOrIndex ty = true
        /\ - 2 ^ 63 <= v < 2 ^ 63
        /\ forall ty',
             isSignlessIntOrIndex ty' = true ->
             Fold.CastOp_fold op [Fold.IntegerAttr ty' v]
             = Returned (Fold.FoldedAttr a)).
Proof.
  intros Hfold.
  destruct (CastOp_fold_constant_operand _ _ _ Hfold) as (ty & v & H0 & Hty & Hv).
  rewrite (CastOp_fold_integer _ _ _ _ H0 Hty Hv) in Hfold.
  assert (Hany : forall ty',
             isSignlessIntOrIndex ty' = true ->
             Fold.CastOp_fold op [Fold.IntegerAttr ty' v]
             = Returned (Fold.FoldedAttr a)).
  { intros ty' Hty'.
    by rewrite (CastOp_fold_integer op [Fold.IntegerAttr ty' v] ty' v eq_refl Hty' Hv). }
  destruct (isSignlessIntOrIndex (Fold.castType_ op)) eqn:Hint.
  - injection Hfold as <-. split; [done |]. split; [done |]. eauto 6.
  - destruct (Fold.castType_ op) as [w s | | kind | id] eqn:Hcast; try done.
    injection Hfold as <-. split; [done |]. split; [done |]. eauto 6.
Qed.

Lemma cast_fold_result_type_witness :
  attributeType (Fold.IntegerAttr (IntegerType 8 Signless) 44)
  = Some (IntegerType 8 Signless).
Proof.
  apply (cast_fold_result_type
           (Fold.mkCastOp (Fold.mkValue 0 (IntegerType 32 Signless))
              (IntegerType 8 Signless))
           [Fold.IntegerAttr (IntegerType 32 Signless) 300]
           (Fold.IntegerAttr (IntegerType 8 Signless) 44)).
  reflexivity.
Defined.

(** X19: folding a cast to a signless integer type of 1 to 64 bits, or to
    the index type, gives a constant that this type can hold, and folding
    the same cast of that constant again gives it back unchanged. *)
Theorem cast_fold_stable (op : Fold.CastOp) (ty : MlirType) (v : Z)
    (a : Fold.Attribute) :
  isSignlessIntOrIndex (Fold.castType_ op) = true ->
  1 <= Fold.storageWidth (Fold.castType_ op) <= 64 ->
  Fold.CastOp_fold op [Fold.IntegerAttr ty v] = Returned (Fold.FoldedAttr a) ->
  Fold.fits a
  /\ Fold.CastOp_fold op [a] = Returned (Fold.FoldedAttr a).
Proof.
  intros Hint Hw Hfold.
  destruct (CastOp_fold_constant_operand _ _ _ Hfold)
    as (ty0 & v0 & [= <- <-] & Hty & Hv).
  revert Hfold.
  rewrite (CastOp_fold_integer op [Fold.IntegerAttr ty v] ty v eq_refl Hty Hv), Hint.
  intros [= <-]. unfold Fold.IntegerAttr_get.
  pose proof (signed_wrap_range (Fold.storageWidth (Fold.castType_ op)) v) as Hr.
  split.
  - simpl. split; [done | apply Hr; lia].
  - rewrite (CastOp_fold_integer op [Fold.IntegerAttr _ _] _ _ eq_refl Hint
               (int64_of_fits _ _ Hw (Hr ltac:(lia)))), Hint.
    unfold Fold.IntegerAttr_get. do 3 f_equal.
    apply signed_wrap_fits; [lia | apply Hr; lia].
Qed.

Lemma cast_fold_stable_witness :
  Fold.CastOp_fold
    (Fold.mkCastOp (Fold.mkValue 0 (IntegerType 32 Signless)) (IntegerType 8 Signless))
    [Fold.IntegerAttr (IntegerType 8 Signless) 44]
  = Returned (Fold.FoldedAttr (Fold.IntegerAttr (IntegerType 8 Signless) 44)).
Proof.
  apply (cast_fold_stable
           (Fold.mkCastOp (Fold.mkValue 0 (IntegerType 32 Signless))
              (IntegerType 8 Signless))
           (IntegerType 32 Signless) 300
           (Fold.IntegerAttr (IntegerType 8 Signless) 44)).
  - reflexivity.
  - simpl. lia.
  - reflexivity.
Defined.

(** ** Looking up a global *)

Lemma enclosing_module_skips (skipped : list Globals.ParentOp)
    (rest : list Globals.ParentOp) :
  (forall op, op ∈ skipped -> Globals.satisfiesModule op = false) ->
  Globals.enclosing_module (skipped ++ rest) = Globals.enclosing_module rest.
Proof.
  induction skipped as [| op skipped IH]; intros Hskip; [done |].
  simpl. rewrite (Hskip op) by left. simpl. apply IH.
  intros op' Hop'. apply Hskip. by right.
Qed.

(** X20: [getGlobal] looks the name up in the nearest parent that has both
    the symbol-table and the isolated-from-above trait, and nowhere else:
    parents with at most one of the traits are passed over, and what lies
    above that parent plays no part. It returns the global of that name
    there, and the null global when the name is absent there or names an
    operation that is not a global. *)
Theorem get_global_nearest_module (skipped : list Globals.ParentOp)
    (module : Globals.ParentOp) (outer : list Globals.ParentOp)
    (global_name : string) :
  (forall op, op ∈ skipped -> Globals.satisfiesModule op = false) ->
  Globals.satisfiesModule module = true ->
  (forall g, Globals.symbols module !! global_name = Some (Globals.GlobalOp g) ->
             Globals.getGlobal (skipped ++ module :: outer) global_name
             = Returned (Some g))
  /\ (Globals.symbols module !! global_name = None ->
      Globals.getGlobal (skipped ++ module :: outer) global_name = Returned None)
  /\ (forall id, Globals.symbols module !! global_name = Some (Globals.OtherSymbol id) ->
                 Globals.getGlobal (skipped ++ module :: outer) global_name
                 = Returned None)
  /\ (forall outer',
        Globals.getGlobal (skipped ++ module :: outer) global_name
        = Globals.getGlobal (skipped ++ module :: outer') global_name).
Proof.
  intros Hskip Hmod. unfold Globals.getGlobal.
  rewrite !enclosing_module_skips by done. simpl. rewrite Hmod. simpl.
  repeat split.
  - by intros g ->.
  - by intros ->.
  - by intros id ->.
  - intros outer'. rewrite enclosing_module_skips by done. simpl. by rewrite Hmod.
Qed.

Lemma get_global_nearest_module_witness :
  Globals.getGlobal
    [Globals.mkParentOp true false {["weights" := Globals.GlobalOp 1]};
     Globals.mkParentOp true true {["bias" := Globals.GlobalOp 2]};
     Globals.mkParentOp true true {["weights" := Globals.GlobalOp 3]}]
    "weights"
  = Returned None.
Proof.
  assert (Hskip : forall op,
             op ∈ [Globals.mkParentOp true false {["weights" := Globals.GlobalOp 1]}] ->
             Globals.satisfiesModule op = false).
  { intros op Hop. apply list_elem_of_singleton in Hop as ->. reflexivity. }
  apply (proj1 (proj2 (get_global_nearest_module
                         [Globals.mkParentOp true false {["weights" := Globals.GlobalOp 1]}]
                         (Globals.mkParentOp true true {["bias" := Globals.GlobalOp 2]})
                         [Globals.mkParentOp true true {["weights" := Globals.GlobalOp 3]}]
                         "weights" Hskip eq_refl))).
  reflexivity.
Defined.

(** X21: when no parent has both traits, in particular when there is no
    parent at all, [getGlobal] stops in its assertion. *)
Theorem get_global_outside_module (parents : list Globals.ParentOp)
    (global_name : string) :
  (forall op, op ∈ parents -> Globals.satisfiesModule op = false) ->
  Globals.getGlobal parents global_name
  = AssertionFailed "unexpected operation outside of a module".
Proof.
  intros Hnone. unfold Globals.getGlobal.
  rewrite <- (app_nil_r parents), enclosing_module_skips by done. done.
Qed.

Lemma get_global_outside_module_witness :
  Globals.getGlobal
    [Globals.mkParentOp true false {["weights" := Globals.GlobalOp 1]}] "weights"
  = AssertionFailed "unexpected operation outside of a module".
Proof.
  apply get_global_outside_module.
  intros op Hop. apply list_elem_of_singleton in Hop as ->. reflexivity.
Defined.

(** ** Building a global *)

(** X22: [GlobalOp::build] always records the symbol name and the type;
    it records the "constant" and "external" markers exactly when the flags
    are set, a value exactly when one is given, and the address space
    exactly when it is not 0. No attribute name is used twice. *)
Theorem global_build_attributes (type : MemRefType) (isConstant : bool)
    (name : string) (value : Fold.Attribute) (addrSpace : Z) (isExternal : bool) :
  let attrs := Globals.GlobalOp_build type isConstant name value addrSpace isExternal in
  Globals.getAttr attrs Func.SymbolAttrName = Some (Globals.StringAttr name)
  /\ Globals.getAttr attrs (Func.Named "type") = Some (Globals.TypeAttr type)
  /\ (is_Some (Globals.getAttr attrs (Func.Named "constant")) <-> isConstant = true)
  /\ (is_Some (Globals.getAttr attrs (Func.Named "external")) <-> isExternal = true)
  /\ (is_Some (Globals.getAttr attrs (Func.Named "value")) <-> value <> Fold.NullAttr)
  /\ (is_Some (Globals.getAttr attrs (Func.Named "addr_space")) <-> addrSpace <> 0)
  /\ NoDup (fst <$> attrs).
Proof.
  unfold Globals.GlobalOp_build.
  case_bool_decide as Haddr; destruct isConstant, isExternal, value;
    cbv zeta; repeat split;
    try (intros [? [=]]); try (intros [=]); try done; try (by eexists);
    try (intros; exfalso; congruence);
    try (simpl; apply (bool_decide_unpack _); vm_compute; exact I).
Qed.

(** ** Types as text *)

(** X23: printing and parsing the types of the dialect are inverse to
    each other: a type that prints is parsed back from its text, and a
    keyword that parses to a type is the text that this type prints as.
    The only such pair is [RangeType] and "range"; no keyword parses to
    the null type. *)
Theorem type_text_round_trip :
  (forall type text,
      DialectType.printType type = Returned text ->
      DialectType.parseType (Some text) = Returned (Some type))
  /\ (forall keyword type,
        DialectType.parseType (Some keyword) = Returned (Some type) ->
        DialectType.printType type = Returned keyword)
  /\ (forall keyword,
        DialectType.parseType (Some keyword) <> Returned None).
Proof.
  split; [| split].
  - intros [| id] text; simpl; [| done]. by intros [= <-].
  - intros keyword type. simpl. case_bool_decide as Hk; [| done].
    intros [= <-]. by subst.
  - intros keyword. simpl. by case_bool_decide.
Qed.

Lemma type_text_round_trip_witness :
  DialectType.parseType (Some "range") = Returned (Some DialectType.RangeType).
Proof.
  apply (proj1 type_text_round_trip DialectType.RangeType "range"). reflexivity.
Defined.

(** ** The fill verifier *)

(** X24: the fill verifier succeeds exactly when the type of the value is
    the element type of the destination, and reports "value type must
    match matrix element type" otherwise. *)
Theorem fill_verifier (op : Verify.MMAFillSyncOp) :
  (Verify.verify_MMAFillSyncOp op = success
   <-> Verify.value op = getElementType (Verify.fillDest op))
  /\ (Verify.value op <> getElementType (Verify.fillDest op)
      -> Verify.verify_MMAFillSyncOp op
         = failure "value type must match matrix element type").
Proof.
  unfold Verify.verify_MMAFillSyncOp. cbv zeta.
  case_bool_decide as Hne.
  - split; [split; [discriminate | done] | done].
  - split; [done | intros H; contradiction].
Qed.

Lemma fill_verifier_witness :
  Verify.verify_MMAFillSyncOp
    (Verify.mkMMAFillSyncOp (FloatType F16)
       (mkMemRefType [16; 16] (FloatType F32)
          (Affine.makeStridedLinearLayoutMap [16; 1] 0) MemorySpace.Private))
  = failure "value type must match matrix element type".
Proof.
  apply (proj2 (fill_verifier _)). simpl. discriminate.
Defined.
